(** * Leaderboard updater: normalisation, caching and combination

    A shallow embedding of [scripts/update_leaderboard.py] and the proofs of
    the properties its specification states.

    Conventions of the embedding.
    - A Python [str] is a list of characters ([list ascii]), a character
      being a code point below 256.  On these [str.strip], the regex class
      [\s] and [str.isspace] agree (9..13, 28..32, 133 and 160), the regex
      class [\d] is the ten ASCII digits, and [lower] maps A..Z and the
      upper-case letters 192..222 (215 apart) 32 places up.  [casefold] is
      [lower] with the sharp s (223) folded to [ss]; the fold of the micro
      sign (181), a Greek mu, is not a code point below 256 and is written
      as the micro sign itself, which no folded text holds otherwise, so
      that equality and containment of folded texts are unchanged.
    - A float is a binary64 value ([pyfloat]): a finite value is the
      rational number it denotes, the negative zero and the two infinities
      are values of their own, and NaN is outside the model (no numeral
      parses to it).  [float()] rounds a decimal numeral to the nearest
      binary64 value, ties to even, and overflows to infinity.
    - An exception is an explicit result [Raise e]; printing to stderr is an
      explicit list of warnings; the network and the clock are parameters.
    - The command line ([main]), the HTTP and browser calls, the reading of
      CSV text and the CodaLab API adapter are outside the embedding: what
      they deliver enters the loaders as a parameter. *)

From Stdlib Require Import List Ascii Bool Arith ZArith QArith Lia.
From Stdlib Require String.
Import String.StringSyntax.
From Stdlib Require Import Permutation Sorted.
Import ListNotations.

Close Scope Q_scope.
Close Scope Z_scope.
Local Open Scope nat_scope.
Local Open Scope list_scope.

(** ** Characters and strings *)

Definition str := list ascii.

Delimit Scope string_scope with string.
Bind Scope string_scope with String.string.

Definition lit (s : String.string) : str := String.list_ascii_of_string s.
Arguments lit s%_string.

Definition ascii_in (lo hi : N) (c : ascii) : bool :=
  (N.leb lo (N_of_ascii c) && N.leb (N_of_ascii c) hi)%bool.

(** [str.isspace], which is also the regex class [\s] and the set of
    characters [str.strip] removes: the ASCII white space, the next-line
    character (133) and the no-break space (160). *)
Definition is_space (c : ascii) : bool :=
  (ascii_in 9 13 c || ascii_in 28 32 c
   || ascii_in 133 133 c || ascii_in 160 160 c)%bool.

(** The regex class [\d]. *)
Definition is_digit (c : ascii) : bool := ascii_in 48 57 c.

(** The characters [str.lower] changes: A..Z and the upper-case letters of
    192..222, the multiplication sign (215) not being one. *)
Definition is_upper (c : ascii) : bool :=
  (ascii_in 65 90 c
   || (ascii_in 192 222 c && negb (ascii_in 215 215 c)))%bool.

Definition lower_char (c : ascii) : ascii :=
  if is_upper c then ascii_of_N (N_of_ascii c + 32) else c.

(** [s.lower()] *)
Definition lower (s : str) : str := map lower_char s.

(** [s.casefold()]: the sharp s folds to two characters. *)
Definition casefold_char (c : ascii) : str :=
  if ascii_in 223 223 c then [ascii_of_N 115; ascii_of_N 115]
  else [lower_char c].

Definition casefold (s : str) : str := flat_map casefold_char s.

Definition str_eqb (a b : str) : bool :=
  if list_eq_dec ascii_dec a b then true else false.

Fixpoint lstrip (s : str) : str :=
  match s with
  | c :: t => if is_space c then lstrip t else s
  | [] => []
  end.

Definition rstrip (s : str) : str := rev (lstrip (rev s)).

(** [s.strip()] *)
Definition strip (s : str) : str := rstrip (lstrip s).

(** [a.startswith(p)], as a test on the text that starts here. *)
Fixpoint prefixb (p s : str) : bool :=
  match p, s with
  | [], _ => true
  | a :: p', b :: s' => (Ascii.eqb a b && prefixb p' s')%bool
  | _ :: _, [] => false
  end.

(** [s.find(p)] scanning from the head of [s]: the offset of the first
    occurrence. *)
Fixpoint find_first (p s : str) : option nat :=
  if prefixb p s then Some 0
  else match s with
       | [] => None
       | _ :: t => option_map S (find_first p t)
       end.

(** [s.find(p, start)]: [-1] is [None]. *)
Definition py_find (p s : str) (start : nat) : option nat :=
  if Nat.ltb (length s) start then None
  else option_map (fun i => start + i) (find_first p (skipn start s)).

(** [p in s] *)
Definition contains (p s : str) : bool :=
  match find_first p s with Some _ => true | None => false end.

(** [s.replace(a, "")] for a one-character [a]. *)
Definition remove_char (a : ascii) (s : str) : str :=
  filter (fun c => negb (Ascii.eqb c a)) s.

(** [s.replace(a, r)] for a one-character [a]. *)
Definition replace_char (a : ascii) (r : str) (s : str) : str :=
  flat_map (fun c => if Ascii.eqb c a then r else [c]) s.

(** [re.sub(r"\s+", " ", s)]: every maximal run of white space becomes one
    blank.  [prev] says that the character before was white space. *)
Fixpoint sub_ws (prev : bool) (s : str) : str :=
  match s with
  | [] => []
  | c :: t =>
      if is_space c
      then (if prev then sub_ws true t else " "%char :: sub_ws true t)
      else c :: sub_ws false t
  end.

(** ** Exceptions *)

Inductive exn : Type :=
| ValueError
| RuntimeError (msg : str)
| FetchError (msg : str).

Inductive result (A : Type) : Type :=
| Ok (a : A)
| Raise (e : exn).
Arguments Ok {A} a.
Arguments Raise {A} e.

Definition bind {A B} (r : result A) (k : A -> result B) : result B :=
  match r with
  | Ok a => k a
  | Raise e => Raise e
  end.

Declare Scope exn_scope.
Notation "x <- r ;; k" := (bind r (fun x => k))
  (at level 61, r at next level, right associativity) : exn_scope.
Local Open Scope exn_scope.

(** ** Column resolver *)

(** [_norm_key]; [None] is Python's [None]. *)
Definition _norm_key (s : option str) : str :=
  match s with
  | None => []
  | Some s => sub_ws false (casefold (strip s))
  end.

(** A [dict] with string keys, in insertion order. *)
Definition dict (V : Type) := list (str * V).

Fixpoint dict_get {V} (d : dict V) (k : str) : option V :=
  match d with
  | [] => None
  | (k', v) :: d' => if str_eqb k k' then Some v else dict_get d' k
  end.

(** [d[k] = v]: an existing key keeps its place and takes the new value. *)
Fixpoint dict_set {V} (d : dict V) (k : str) (v : V) : dict V :=
  match d with
  | [] => [(k, v)]
  | (k', v') :: d' =>
      if str_eqb k k' then (k', v) :: d' else (k', v') :: dict_set d' k v
  end.

(** [{k: v for (k, v) in l}] *)
Definition dict_of {V} (l : list (str * V)) : dict V :=
  fold_left (fun d kv => dict_set d (fst kv) (snd kv)) l [].

(** [[h for h in headers if h is not None]] *)
Fixpoint not_none {A} (l : list (option A)) : list A :=
  match l with
  | [] => []
  | Some a :: t => a :: not_none t
  | None :: t => not_none t
  end.

Definition first_key {V} (p : str * V -> bool) (d : dict V) : option str :=
  option_map fst (find p d).

(** [_find_column] *)
Definition _find_column (headers : list (option str)) (candidates : list str)
  : option str :=
  let headers := not_none headers in
  let norm_headers := dict_of (map (fun h => (h, _norm_key (Some h))) headers) in
  let cand_norm := map (fun c => _norm_key (Some c)) candidates in
  match first_key (fun hn => existsb (str_eqb (snd hn)) cand_norm) norm_headers with
  | Some h => Some h
  | None =>
      first_key
        (fun hn =>
           existsb (fun c => (negb (str_eqb c []) && contains c (snd hn))%bool)
                   cand_norm)
        norm_headers
  end.

(** ** Value normaliser: numbers *)

Definition digit_val (c : ascii) : N := N_of_ascii c - 48.

(** The value of a string of decimal digits. *)
Definition digits_val (ds : str) : N :=
  fold_left (fun acc c => (10 * acc + digit_val c)%N) ds 0%N.

Fixpoint span_digits (s : str) : str * str :=
  match s with
  | c :: t =>
      if is_digit c
      then let '(ds, r) := span_digits t in (c :: ds, r)
      else ([], s)
  | [] => ([], [])
  end.

Definition is_sign (c : ascii) : bool :=
  (Ascii.eqb c "-" || Ascii.eqb c "+")%bool.

(** [\d+(\.\d+)?] matched at the head of [s], greedily: the matched text and
    what follows it.  The group is taken when a digit follows the dot. *)
Definition match_unsigned (s : str) : option (str * str) :=
  let '(ds, r) := span_digits s in
  match ds with
  | [] => None
  | _ =>
      match r with
      | c :: t =>
          if Ascii.eqb c "."
          then let '(fs, r') := span_digits t in
               match fs with
               | [] => Some (ds, r)
               | _ => Some (ds ++ c :: fs, r')
               end
          else Some (ds, r)
      | [] => Some (ds, r)
      end
  end.

(** [[-+]?\d+(\.\d+)?] matched at the head of [s]: the sign is tried first,
    then the empty alternative of [?]. *)
Definition match_number (s : str) : option (str * str) :=
  let unsigned := match_unsigned s in
  match s with
  | c :: t =>
      if is_sign c
      then match match_unsigned t with
           | Some (m, r) => Some (c :: m, r)
           | None => unsigned
           end
      else unsigned
  | [] => unsigned
  end.

(** [re.search(r"[-+]?\d+(\.\d+)?", s)]: the match at the leftmost position
    that has one; the result is [m.group(0)]. *)
Fixpoint search_number (s : str) : option str :=
  match match_number s with
  | Some (m, _) => Some m
  | None =>
      match s with
      | [] => None
      | _ :: t => search_number t
      end
  end.

Fixpoint pow10 (n : nat) : positive :=
  match n with
  | O => 1%positive
  | S n' => (10 * pow10 n')%positive
  end.

(** A [float], a binary64 value: a finite value is the rational number it
    denotes, the zero reached from below zero and the two infinities are
    values of their own. *)
Inductive pyfloat : Type :=
| Finite (q : Q)
| NegZero
| PosInf
| NegInf.

(** [n / d] rounded to an integer, a tie going to the even one
    ([0 <= n] and [0 < d]). *)
Definition round_half_even (n d : Z) : Z :=
  let q := (n / d)%Z in
  match (2 * (n mod d) ?= d)%Z with
  | Lt => q
  | Gt => (q + 1)%Z
  | Eq => if Z.even q then q else (q + 1)%Z
  end.

(** [(n / d) / 2 ^ e] as a fraction. *)
Definition scale (n d e : Z) : Z * Z :=
  if (0 <=? e)%Z then (n, (d * 2 ^ e)%Z) else ((n * 2 ^ (- e))%Z, d).

(** The exponent of the unit in the last place of the binary64 values around
    [n / d] ([0 < n], [0 < d]): the [e] with
    [2 ^ 52 <= (n / d) / 2 ^ e < 2 ^ 53], and [-1074], that of the subnormal
    values, where this is lower. *)
Definition binary64_exponent (n d : Z) : Z :=
  let e := (Z.log2 n - Z.log2 d - 52)%Z in
  let '(n', d') := scale n d e in
  let e := if (n' <? d' * 2 ^ 52)%Z then (e - 1)%Z else e in
  Z.max e (-1074).

Definition signed_zero (neg : bool) : pyfloat :=
  if neg then NegZero else Finite 0.

Definition signed_inf (neg : bool) : pyfloat :=
  if neg then NegInf else PosInf.

(** The binary64 value nearest to [n / d] ([0 <= n]) with the sign [neg],
    a tie going to the even significand: a multiple [m * 2 ^ e] of the unit
    in the last place, infinite from [2 ^ 1024] on. *)
Definition binary64_of (neg : bool) (n : Z) (d : positive) : pyfloat :=
  if (n =? 0)%Z then signed_zero neg
  else
    let e := binary64_exponent n (Zpos d) in
    let '(n', d') := scale n (Zpos d) e in
    let m := round_half_even n' d' in
    if (m =? 0)%Z then signed_zero neg
    else if ((0 <=? e) && (2 ^ 1024 <=? m * 2 ^ e))%Z%bool then signed_inf neg
    else
      let v := if (0 <=? e)%Z then inject_Z (m * 2 ^ e)
               else Qmake m (Z.to_pos (2 ^ (- e))) in
      Finite (Qred (if neg then Qopp v else v)).

(** The numerator and denominator [float] reads from an unsigned decimal
    numeral: digits and an optional fraction ([12], [12.5], [12.], [.5]). *)
Definition decimal_parts (s : str) : result (Z * positive) :=
  let '(ip, r) := span_digits s in
  match r with
  | [] =>
      match ip with
      | [] => Raise ValueError
      | _ => Ok (Z.of_N (digits_val ip), 1%positive)
      end
  | c :: t =>
      let '(fp, r') := span_digits t in
      if (Ascii.eqb c "." && str_eqb r' [] && negb (str_eqb (ip ++ fp) []))%bool
      then Ok (Z.of_N (digits_val (ip ++ fp)), pow10 (length fp))
      else Raise ValueError
  end.

(** [float(s)] on decimal numerals with an optional sign.  Any other text is
    a [ValueError] here (Python's [float] also reads exponents, [inf], [nan],
    underscores and surrounding blanks, none of which [_parse_float] passes
    to it). *)
Definition py_float (s : str) : result pyfloat :=
  match s with
  | c :: t =>
      if Ascii.eqb c "-"
      then nd <- decimal_parts t ;; Ok (binary64_of true (fst nd) (snd nd))
      else if Ascii.eqb c "+"
      then nd <- decimal_parts t ;; Ok (binary64_of false (fst nd) (snd nd))
      else nd <- decimal_parts s ;; Ok (binary64_of false (fst nd) (snd nd))
  | [] => Raise ValueError
  end.

Definition float_sentinels : list str :=
  [lit "na"; lit "n/a"; lit "none"; lit "null"; lit "-"].

(** [_parse_float]; the argument is a string or [None]. *)
Definition _parse_float (v : option str) : result (option pyfloat) :=
  match v with
  | None => Ok None
  | Some v =>
      let s := strip v in
      if (str_eqb s [] || existsb (str_eqb (lower s)) float_sentinels)%bool
      then Ok None
      else
        let s := remove_char "," s in
        match search_number s with
        | None => Ok None
        | Some m =>
            match py_float m with
            | Ok q => Ok (Some q)
            | Raise ValueError => Ok None
            | Raise e => Raise e
            end
        end
  end.

(** ** Value normaliser: dates *)

(** A [datetime.datetime]; [dt_tz] is the UTC offset in microseconds of an
    aware value. *)
Record datetime : Type := mk_datetime {
  dt_year : N; dt_month : N; dt_day : N;
  dt_hour : N; dt_minute : N; dt_second : N; dt_microsecond : N;
  dt_tz : option Z
}.

Definition is_leap (y : N) : bool :=
  (((y mod 4 =? 0) && negb (y mod 100 =? 0)) || (y mod 400 =? 0))%N%bool.

Definition days_in_month (y m : N) : N :=
  if (m =? 2)%N then (if is_leap y then 29 else 28)%N
  else if ((m =? 4) || (m =? 6) || (m =? 9) || (m =? 11))%N%bool then 30%N
  else 31%N.

(** The constructor [datetime(y, m, d, H, M, S, us, tz)] with its range checks. *)
Definition make_datetime (y m d hh mi sec us : N) (tz : option Z) : result datetime :=
  if ((1 <=? y) && (y <=? 9999) && (1 <=? m) && (m <=? 12)
      && (1 <=? d) && (d <=? days_in_month y m)
      && (hh <? 24) && (mi <? 60) && (sec <? 60) && (us <? 1000000))%N%bool
  then Ok (mk_datetime y m d hh mi sec us tz)
  else Raise ValueError.

(** Exactly [n] decimal digits at the head of [s]: their value and the rest. *)
Fixpoint take_digits (n : nat) (s : str) : option (str * str) :=
  match n with
  | O => Some ([], s)
  | S n' =>
      match s with
      | c :: t =>
          if is_digit c
          then match take_digits n' t with
               | Some (ds, r) => Some (c :: ds, r)
               | None => None
               end
          else None
      | [] => None
      end
  end.

Definition expect_char (c : ascii) (s : str) : option str :=
  match s with
  | c' :: t => if Ascii.eqb c c' then Some t else None
  | [] => None
  end.

Definition obind {A B} (o : option A) (k : A -> option B) : option B :=
  match o with
  | Some a => k a
  | None => None
  end.

(** [HH[:MM[:SS[.fff[fff]]]]], all of [s]: hours, minutes, seconds and
    microseconds, not yet range-checked. *)
Definition parse_hh_mm_ss_ff (s : str) : option (N * N * N * N) :=
  obind (take_digits 2 s) (fun '(hh, r1) =>
  let h := digits_val hh in
  match r1 with
  | [] => Some (h, 0, 0, 0)%N
  | _ =>
  obind (expect_char ":" r1) (fun r1' =>
  obind (take_digits 2 r1') (fun '(mm, r2) =>
  let m := digits_val mm in
  match r2 with
  | [] => Some (h, m, 0, 0)%N
  | _ =>
  obind (expect_char ":" r2) (fun r2' =>
  obind (take_digits 2 r2') (fun '(ss, r3) =>
  let sec := digits_val ss in
  match r3 with
  | [] => Some (h, m, sec, 0)%N
  | _ =>
  obind (expect_char "." r3) (fun r3' =>
  match take_digits (length r3') r3' with
  | Some (ff, _) =>
      if Nat.eqb (length ff) 3 then Some (h, m, sec, digits_val ff * 1000)%N
      else if Nat.eqb (length ff) 6 then Some (h, m, sec, digits_val ff)%N
      else None
  | None => None
  end)
  end))
  end))
  end).

(** The position of the first character of [s] that satisfies [p]. *)
Fixpoint index_where (p : ascii -> bool) (s : str) : option nat :=
  match s with
  | [] => None
  | c :: t => if p c then Some 0 else option_map S (index_where p t)
  end.

(** The time part of an ISO string, after the separator:
    [HH[:MM[:SS[.fff[fff]]]][+HH:MM[:SS[.ffffff]]]]. *)
Definition parse_isoformat_time (s : str) : option (N * N * N * N * option Z) :=
  let tz_pos :=
    match index_where (Ascii.eqb "-") s with
    | Some i => Some i
    | None => index_where (Ascii.eqb "+") s
    end in
  match tz_pos with
  | None => option_map (fun t => (t, None)) (parse_hh_mm_ss_ff s)
  | Some i =>
      obind (parse_hh_mm_ss_ff (firstn i s)) (fun t =>
      let tzstr := skipn (S i) s in
      if (Nat.eqb (length tzstr) 5 || Nat.eqb (length tzstr) 8
          || Nat.eqb (length tzstr) 15)%bool
      then
        obind (parse_hh_mm_ss_ff tzstr) (fun '(h, m, sec, us) =>
        let off := Z.of_N (((h * 60 + m) * 60 + sec) * 1000000 + us) in
        if (off <? 86400000000)%Z
        then Some (t, Some (if prefixb ["-"%char] (skipn i s) then (- off)%Z else off))
        else None)
      else None)
  end.

(** [datetime.fromisoformat], the grammar the library documents for it:
    [YYYY-MM-DD[*HH[:MM[:SS[.fff[fff]]]][+HH:MM[:SS[.ffffff]]]]], where [*]
    is any one character.  (Later library versions read further ISO 8601
    spellings; each of them starts with the four digits of the year.) *)
Definition fromisoformat (s : str) : result datetime :=
  let parsed :=
    obind (take_digits 4 s) (fun '(yy, r1) =>
    obind (expect_char "-" r1) (fun r1' =>
    obind (take_digits 2 r1') (fun '(mm, r2) =>
    obind (expect_char "-" r2) (fun r2' =>
    obind (take_digits 2 r2') (fun '(dd, r3) =>
    match r3 with
    | [] => Some (digits_val yy, digits_val mm, digits_val dd, (0, 0, 0, 0, None)%N)
    | _ :: tstr =>
        option_map (fun t => (digits_val yy, digits_val mm, digits_val dd, t))
                   (parse_isoformat_time tstr)
    end))))) in
  match parsed with
  | Some (y, m, d, (hh, mi, sec, us, tz)) => make_datetime y m d hh mi sec us tz
  | None => Raise ValueError
  end.

(** *** [datetime.strptime]

    The library turns a format into a regular expression: a directive
    becomes a group of ordered alternatives, a run of white space becomes
    [\s+], any other character stands for itself, and letters match without
    regard to case.  The expression is matched at the head of the text, with
    backtracking, and the first match must reach the end of the text. *)

Inductive directive : Type := DY | Dm | Dd | DH | DM | DS | Db | DB.

Inductive fmt_item : Type :=
| FDir (d : directive)
| FWs
| FLit (c : ascii).

Definition directive_of (c : ascii) : option directive :=
  if Ascii.eqb c "Y" then Some DY
  else if Ascii.eqb c "m" then Some Dm
  else if Ascii.eqb c "d" then Some Dd
  else if Ascii.eqb c "H" then Some DH
  else if Ascii.eqb c "M" then Some DM
  else if Ascii.eqb c "S" then Some DS
  else if Ascii.eqb c "b" then Some Db
  else if Ascii.eqb c "B" then Some DB
  else None.

(** The items of a format string; [prev] says that the character before was
    white space.  A directive this model does not know is kept as text. *)
Fixpoint compile_format (prev : bool) (fmt : str) : list fmt_item :=
  match fmt with
  | [] => []
  | c :: t =>
      if is_space c
      then (if prev then compile_format true t else FWs :: compile_format true t)
      else if Ascii.eqb c "%"
      then match t with
           | d :: t' =>
               match directive_of d with
               | Some dir => FDir dir :: compile_format false t'
               | None => FLit c :: compile_format false t
               end
           | [] => [FLit c]
           end
      else FLit c :: compile_format false t
  end.

Record fields : Type := mk_fields {
  f_year : N; f_month : N; f_day : N; f_hour : N; f_minute : N; f_second : N
}.

Definition default_fields : fields := mk_fields 1900 1 1 0 0 0.

(** One alternative of a numeric directive: a sequence of character classes. *)
Fixpoint match_classes (cs : list (ascii -> bool)) (s : str) : option (str * str) :=
  match cs with
  | [] => Some ([], s)
  | p :: cs' =>
      match s with
      | c :: t =>
          if p c
          then match match_classes cs' t with
               | Some (m, r) => Some (c :: m, r)
               | None => None
               end
          else None
      | [] => None
      end
  end.

Definition is_char (c : ascii) : ascii -> bool := Ascii.eqb c.
Definition in_range (lo hi : ascii) (c : ascii) : bool :=
  ascii_in (N_of_ascii lo) (N_of_ascii hi) c.

(** The alternatives of the numeric directives, in the library's order. *)
Definition alternatives (d : directive) : list (list (ascii -> bool)) :=
  match d with
  | DY => [[is_digit; is_digit; is_digit; is_digit]]
  | Dm => [[is_char "1"; in_range "0" "2"]; [is_char "0"; in_range "1" "9"];
           [in_range "1" "9"]]
  | Dd => [[is_char "3"; in_range "0" "1"]; [in_range "1" "2"; is_digit];
           [is_char "0"; in_range "1" "9"]; [in_range "1" "9"];
           [is_char " "; in_range "1" "9"]]
  | DH => [[is_char "2"; in_range "0" "3"]; [in_range "0" "1"; is_digit];
           [is_digit]]
  | DM => [[in_range "0" "5"; is_digit]; [is_digit]]
  | DS => [[is_char "6"; in_range "0" "1"]; [in_range "0" "5"; is_digit];
           [is_digit]]
  | Db | DB => []
  end.

Definition month_abbr : list str :=
  [lit "Jan"; lit "Feb"; lit "Mar"; lit "Apr"; lit "May"; lit "Jun";
   lit "Jul"; lit "Aug"; lit "Sep"; lit "Oct"; lit "Nov"; lit "Dec"].

Definition month_name : list str :=
  [lit "January"; lit "February"; lit "March"; lit "April"; lit "May";
   lit "June"; lit "July"; lit "August"; lit "September"; lit "October";
   lit "November"; lit "December"].

(** The names with their month numbers, longest name first (the order of
    the alternation the library builds; names of one length keep their
    calendar order). *)
Fixpoint number_from (n : N) (l : list str) : list (str * N) :=
  match l with
  | [] => []
  | x :: t => (x, n) :: number_from (n + 1) t
  end.

Fixpoint insert_by_length (x : str * N) (l : list (str * N)) : list (str * N) :=
  match l with
  | [] => [x]
  | y :: t =>
      if Nat.ltb (length (fst y)) (length (fst x))
      then x :: l else y :: insert_by_length x t
  end.

Definition longest_first (l : list (str * N)) : list (str * N) :=
  fold_left (fun acc x => insert_by_length x acc) l [].

Definition set_field (d : directive) (v : N) (f : fields) : fields :=
  match d with
  | DY => mk_fields v (f_month f) (f_day f) (f_hour f) (f_minute f) (f_second f)
  | Dm | Db | DB =>
      mk_fields (f_year f) v (f_day f) (f_hour f) (f_minute f) (f_second f)
  | Dd => mk_fields (f_year f) (f_month f) v (f_hour f) (f_minute f) (f_second f)
  | DH => mk_fields (f_year f) (f_month f) (f_day f) v (f_minute f) (f_second f)
  | DM => mk_fields (f_year f) (f_month f) (f_day f) (f_hour f) v (f_second f)
  | DS => mk_fields (f_year f) (f_month f) (f_day f) (f_hour f) (f_minute f) v
  end.

(** The ways a directive matches at the head of [s], in order: the value it
    reads and the rest of the text. *)
Definition match_directive (d : directive) (s : str) : list (N * str) :=
  match d with
  | Db | DB =>
      flat_map
        (fun '(name, n) =>
           if (Nat.leb (length name) (length s)
               && str_eqb (lower (firstn (length name) s)) (lower name))%bool
           then [(n, skipn (length name) s)] else [])
        (longest_first (number_from 1 (match d with Db => month_abbr | _ => month_name end)))
  | _ =>
      flat_map
        (fun cs =>
           match match_classes cs s with
           | Some (m, r) => [(digits_val (filter is_digit m), r)]
           | None => []
           end)
        (alternatives d)
  end.

(** [\s+]: the longest run first, then every shorter one down to one
    character. *)
Fixpoint match_ws (s : str) : list str :=
  match s with
  | c :: t => if is_space c then match_ws t ++ [t] else []
  | [] => []
  end.

Definition match_item (it : fmt_item) (f : fields) (s : str) : list (fields * str) :=
  match it with
  | FDir d => map (fun '(v, r) => (set_field d v f, r)) (match_directive d s)
  | FWs => map (fun r => (f, r)) (match_ws s)
  | FLit c =>
      match s with
      | c' :: t => if Ascii.eqb (lower_char c) (lower_char c') then [(f, t)] else []
      | [] => []
      end
  end.

Fixpoint match_items (its : list fmt_item) (f : fields) (s : str)
  : list (fields * str) :=
  match its with
  | [] => [(f, s)]
  | it :: its' =>
      flat_map (fun '(f', s') => match_items its' f' s') (match_item it f s)
  end.

(** [datetime.strptime(s, fmt)] *)
Definition strptime (s fmt : str) : result datetime :=
  match match_items (compile_format false fmt) default_fields s with
  | [] => Raise ValueError
  | (f, r) :: _ =>
      match r with
      | [] => make_datetime (f_year f) (f_month f) (f_day f)
                            (f_hour f) (f_minute f) (f_second f) 0 None
      | _ => Raise ValueError
      end
  end.

Definition date_formats : list str :=
  [lit "%Y-%m-%d %H:%M:%S"; lit "%Y-%m-%d"; lit "%b %d, %Y"; lit "%b. %d, %Y";
   lit "%B %d, %Y"].

(** The loop over the formats: the first one that parses wins, every
    exception is swallowed. *)
Fixpoint try_formats (s : str) (fmts : list str) : option datetime :=
  match fmts with
  | [] => None
  | fmt :: rest =>
      match strptime s fmt with
      | Ok dt => Some dt
      | Raise _ => try_formats s rest
      end
  end.

(** [_parse_date_any] *)
Definition _parse_date_any (v : option str) : option datetime :=
  match v with
  | None => None
  | Some v =>
      let s := strip v in
      if str_eqb s [] then None
      else
        match fromisoformat (replace_char "Z" (lit "+00:00") s) with
        | Ok dt => Some dt
        | Raise _ => try_formats s date_formats
        end
  end.

(** Decimal digits of a number. *)
Definition digit_char (d : N) : ascii := ascii_of_N (48 + d).

Fixpoint dec_digits (fuel : nat) (n : N) (acc : str) : str :=
  match fuel with
  | O => acc
  | S fuel' =>
      let acc' := digit_char (n mod 10) :: acc in
      if (n / 10 =? 0)%N then acc' else dec_digits fuel' (n / 10)%N acc'
  end.

(** [str(n)] for a natural number. *)
Definition str_of_N (n : N) : str := dec_digits (S (N.to_nat (N.log2 n))) n [].

(** ["{:0wd}".format(n)] *)
Definition zero_pad (w : nat) (n : N) : str :=
  let ds := str_of_N n in repeat "0"%char (w - length ds) ++ ds.

(** [dt.strftime("%b")] *)
Definition strftime_b (dt : datetime) : str :=
  nth (N.to_nat (dt_month dt) - 1) month_abbr [].

(** [_month_abbr_with_dot] *)
Definition _month_abbr_with_dot (dt : datetime) : str :=
  let m := strftime_b dt in
  let m := if str_eqb m (lit "Sep") then lit "Sept" else m in
  m ++ lit ".".

(** [_format_date_display]; a [datetime] is always true. *)
Definition _format_date_display (dt : option datetime) : option str :=
  match dt with
  | None => None
  | Some dt =>
      Some (_month_abbr_with_dot dt ++ lit " " ++ zero_pad 2 (dt_day dt)
            ++ lit ", " ++ zero_pad 4 (dt_year dt))
  end.

(** [_date_iso]: [dt.date().isoformat()] *)
Definition _date_iso (dt : option datetime) : option str :=
  match dt with
  | None => None
  | Some dt =>
      Some (zero_pad 4 (dt_year dt) ++ lit "-" ++ zero_pad 2 (dt_month dt)
            ++ lit "-" ++ zero_pad 2 (dt_day dt))
  end.

(** ** Row normaliser *)

(** A leaderboard row, a [dict] in the source: an absent key and [None] are
    both [None] here.  The last four fields are set by the combiner. *)
Record row : Type := mk_row {
  r_team : option str;
  r_auc : option pyfloat; r_mrr : option pyfloat;
  r_ndcg5 : option pyfloat; r_ndcg10 : option pyfloat;
  r_date_iso : option str; r_date_raw : option str; r_date_display : option str;
  r_source : option str; r_competition_id : option Z; r_results_url : option str;
  r_rank : option nat
}.

(** [x or ""] *)
Definition or_empty (x : option str) : str :=
  match x with Some s => s | None => [] end.

(** [x or None] for a string: the empty string is false. *)
Definition or_none (x : str) : option str :=
  match x with [] => None | _ => Some x end.

(** [col if col else None]: a column name that is [None] or empty is false. *)
Definition truthy (col : option str) : option str :=
  match col with
  | Some [] | None => None
  | Some c => Some c
  end.

Definition team_candidates : list str :=
  [lit "team"; lit "team name"; lit "participant"; lit "user"; lit "username"].
Definition date_candidates : list str :=
  [lit "date of last entry"; lit "last entry"; lit "submission date";
   lit "submitted"; lit "date"].
Definition auc_candidates : list str := [lit "auc"].
Definition mrr_candidates : list str := [lit "mrr"].
Definition ndcg5_candidates : list str := [lit "ndcg@5"; lit "ndcg5"; lit "ndcg 5"].
Definition ndcg10_candidates : list str := [lit "ndcg@10"; lit "ndcg10"; lit "ndcg 10"].

(** [enumerate(l)] from [i]. *)
Fixpoint enumerate_from {A} (i : nat) (l : list A) : list (nat * A) :=
  match l with
  | [] => []
  | x :: t => (i, x) :: enumerate_from (S i) t
  end.

(** [{h: i for i, h in enumerate(headers) if h is not None}] *)
Definition header_index (headers : list (option str)) : dict nat :=
  dict_of (flat_map (fun ih => match snd ih with
                               | Some h => [(h, fst ih)]
                               | None => []
                               end)
                    (enumerate_from 0 headers)).

(** The inner function [cell] of [_codabench_parse_table]. *)
Definition cell (index : dict nat) (r : list str) (col : option str) : option str :=
  match truthy col with
  | None => None
  | Some c =>
      match dict_get index c with
      | None => None
      | Some i => nth_error r i
      end
  end.

Section ParseTable.
Variable index : dict nat.
Variables team_col date_col auc_col mrr_col ndcg5_col ndcg10_col : option str.

(** The loop body of [_codabench_parse_table]: the rows appended for one
    raw row. *)
Definition table_row (r : list str) : result (list row) :=
  let team := strip (or_empty (cell index r team_col)) in
  match team with
  | [] => Ok []
  | _ =>
      let dt := _parse_date_any (cell index r date_col) in
      auc <- _parse_float (cell index r auc_col) ;;
      mrr <- _parse_float (cell index r mrr_col) ;;
      ndcg5 <- _parse_float (cell index r ndcg5_col) ;;
      ndcg10 <- _parse_float (cell index r ndcg10_col) ;;
      Ok [mk_row (Some team) auc mrr ndcg5 ndcg10
                 (_date_iso dt) None (_format_date_display dt)
                 None None None None]
  end.

Fixpoint table_rows (rows_2d : list (list str)) : result (list row) :=
  match rows_2d with
  | [] => Ok []
  | r :: rest =>
      here <- table_row r ;;
      more <- table_rows rest ;;
      Ok (here ++ more)
  end.
End ParseTable.

(** [_codabench_parse_table] *)
Definition _codabench_parse_table (headers : list (option str))
           (rows_2d : list (list str)) : result (list row) :=
  match headers, rows_2d with
  | [], _ | _, [] => Ok []
  | _, _ =>
      table_rows (header_index headers)
                 (_find_column headers team_candidates)
                 (_find_column headers date_candidates)
                 (_find_column headers auc_candidates)
                 (_find_column headers mrr_candidates)
                 (_find_column headers ndcg5_candidates)
                 (_find_column headers ndcg10_candidates)
                 rows_2d
  end.

(** A row of [csv.DictReader]: the field names in the order of the header
    line, each with its cell, [None] where the line is short.  Reading the
    CSV text itself ([_csv_dict_rows]) is outside the model. *)
Definition csv_row := dict (option str).

(** [r.get(col) if col else None] *)
Definition csv_get (r : csv_row) (col : option str) : option str :=
  match truthy col with
  | None => None
  | Some c =>
      match dict_get r c with
      | Some v => v
      | None => None
      end
  end.

Section ParseGeneric.
Variables team_col date_col auc_col mrr_col ndcg5_col ndcg10_col : option str.

(** [_parse_float(r.get(col)) if col else None] *)
Definition csv_metric (r : csv_row) (col : option str)
  : result (option pyfloat) :=
  match truthy col with
  | None => Ok None
  | Some _ => _parse_float (csv_get r col)
  end.

(** The loop body of [_parse_generic_leaderboard_rows]. *)
Definition generic_row (r : csv_row) : result (list row) :=
  let team := strip (or_empty (csv_get r team_col)) in
  match team with
  | [] => Ok []
  | _ =>
      let date_raw_s :=
        match csv_get r date_col with
        | Some d => strip d
        | None => []
        end in
      let dt :=
        match date_raw_s with
        | [] => None
        | _ => _parse_date_any (Some date_raw_s)
        end in
      auc <- csv_metric r auc_col ;;
      mrr <- csv_metric r mrr_col ;;
      ndcg5 <- csv_metric r ndcg5_col ;;
      ndcg10 <- csv_metric r ndcg10_col ;;
      Ok [mk_row (Some team) auc mrr ndcg5 ndcg10
                 (_date_iso dt) (or_none date_raw_s)
                 (match dt with
                  | Some _ => _format_date_display dt
                  | None => or_none date_raw_s
                  end)
                 None None None None]
  end.

Fixpoint generic_rows (dict_rows : list csv_row) : result (list row) :=
  match dict_rows with
  | [] => Ok []
  | r :: rest =>
      here <- generic_row r ;;
      more <- generic_rows rest ;;
      Ok (here ++ more)
  end.
End ParseGeneric.

(** [_parse_generic_leaderboard_rows], from the rows [_csv_dict_rows] read. *)
Definition _parse_generic_leaderboard_rows (dict_rows : list csv_row)
  : result (list row) :=
  match dict_rows with
  | [] => Ok []
  | first :: _ =>
      let headers := map (fun kv => Some (fst kv)) first in
      generic_rows (_find_column headers team_candidates)
                   (_find_column headers date_candidates)
                   (_find_column headers auc_candidates)
                   (_find_column headers mrr_candidates)
                   (_find_column headers ndcg5_candidates)
                   (_find_column headers ndcg10_candidates)
                   dict_rows
  end.

(** ** Source cache manager *)

(** A source snapshot, a [dict] in the source; an absent key and [None] are
    both [None]. *)
Record payload : Type := mk_payload {
  p_source : option str;
  p_competition_id : option Z;
  p_base_url : option str;
  p_results_url : option str;
  p_fetched_at : option str;
  p_note : option str;
  p_phase_id : option Z;
  p_results_id : option Z;
  p_method : option str;
  p_phase : option Z;
  p_rows : list row
}.

(** [_is_placeholder_payload] *)
Definition _is_placeholder_payload (p : payload) : bool :=
  let fetched_at := or_empty (p_fetched_at p) in
  let note := or_empty (p_note p) in
  let rows := p_rows p in
  if prefixb (lit "1970-01-01") fetched_at then true
  else if contains (lit "placeholder") (casefold note) then true
  else match rows with
       | [] => true
       | _ => false
       end.

Definition RESULT_URLS : dict str :=
  [(lit "codalab-old", lit "https://competitions.codalab.org/competitions/24122#results");
   (lit "codalab-new", lit "https://codalab.lisn.upsaclay.fr/competitions/420#results");
   (lit "codabench", lit "https://www.codabench.org/competitions/13955/#/results-tab")].

Definition CODABENCH_DEFAULT_PHASE_ID : Z := 23177%Z.

(** What is on disk at [cache_path]: nothing, a file that does not hold a
    JSON object, or a snapshot. *)
Inductive cache_file : Type :=
| NoFile
| Garbage
| Snapshot (p : payload).

(** [cache_path.exists()] *)
Definition cache_exists (c : cache_file) : bool :=
  match c with NoFile => false | _ => true end.

(** [json.loads(_read_text(cache_path))], used as a [dict]. *)
Definition read_cache (c : cache_file) : result payload :=
  match c with
  | Snapshot p => Ok p
  | Garbage => Raise ValueError
  | NoFile => Raise (RuntimeError (lit "FileNotFoundError"))
  end.

(** What a loader does besides returning: the lines it prints to stderr, the
    calls of its fetch step, the snapshot it writes. *)
Inductive warning : Type :=
| WarnPlaceholderCache
| WarnRefreshFailedUsingCache (e : exn)
| WarnInitRefreshFailed (e : exn).

Inductive event : Type :=
| EWarn (w : warning)
| EFetch
| EWrite (p : payload).

Definition outcome : Type := result payload * list event.

(** The remote side of CodaBench: what scraping the results tab gives (the
    headers and cells of the table chosen) and what the CSV export gives
    (the rows read from it), or the exception either raises.  [HTTP403] is
    [urllib.error.HTTPError] with code 403. *)
Definition HTTP403 : exn := FetchError (lit "HTTP Error 403: Forbidden").

Definition is_http403 (e : exn) : bool :=
  match e with
  | FetchError m => str_eqb m (lit "HTTP Error 403: Forbidden")
  | _ => false
  end.

Record codabench_remote : Type := mk_remote {
  remote_scrape : result (list (option str) * list (list str));
  remote_csv : result (list csv_row)
}.

(** The inner function [_fetch_rows] of [_codabench_load_or_fetch]. *)
Definition _fetch_rows (method : str) (remote : codabench_remote)
  : result (str * list row) :=
  let scrape :=
    t <- remote_scrape remote ;;
    rows <- _codabench_parse_table (fst t) (snd t) ;;
    Ok (lit "scrape", rows) in
  let csv :=
    dict_rows <- remote_csv remote ;;
    rows <- _parse_generic_leaderboard_rows dict_rows ;;
    Ok (lit "csv", rows) in
  if str_eqb method (lit "scrape") then scrape
  else if str_eqb method (lit "csv") then csv
  else match csv with
       | Ok r => Ok r
       | Raise e => if is_http403 e then scrape else Raise e
       end.

(** [x or d] for an integer. *)
Definition z_or (x : option Z) (d : Z) : Z :=
  match x with
  | Some 0%Z | None => d
  | Some v => v
  end.

(** [(method or "scrape").strip().lower()] *)
Definition normal_method (method : option str) : str :=
  lower (strip (match method with
                | Some ((_ :: _) as m) => m
                | _ => lit "scrape"
                end)).

(** [method in {"scrape", "csv", "auto"}] *)
Definition valid_method (method : str) : bool :=
  existsb (str_eqb method) [lit "scrape"; lit "csv"; lit "auto"].

(** [_codabench_load_or_fetch]; [now] is [_utc_now_iso()]. *)
Definition _codabench_load_or_fetch (cache : cache_file) (refresh : bool)
           (base_url : str) (competition_id : Z) (method : option str)
           (remote : codabench_remote) (now : str) : outcome :=
  if (cache_exists cache && negb refresh)%bool
  then match read_cache cache with
       | Raise e => (Raise e, [])
       | Ok cached =>
           (Ok cached,
            if _is_placeholder_payload cached then [EWarn WarnPlaceholderCache] else [])
       end
  else
    let phase_id :=
      match read_cache cache with
      | Ok cached => z_or (p_phase_id cached) CODABENCH_DEFAULT_PHASE_ID
      | Raise _ => CODABENCH_DEFAULT_PHASE_ID
      end in
    let method := normal_method method in
    if negb (valid_method method)
    then (Raise ValueError, [])
    else
      match _fetch_rows method remote with
      | Raise e =>
          if cache_exists cache
          then match read_cache cache with
               | Raise e' => (Raise e', [EFetch])
               | Ok cached =>
                   if negb (_is_placeholder_payload cached)
                   then (Ok cached, [EFetch; EWarn (WarnRefreshFailedUsingCache e)])
                   else (Raise e, [EFetch])
               end
          else (Raise e, [EFetch])
      | Ok (codabench_method_used, rows) =>
          let payload :=
            mk_payload (Some (lit "codabench")) (Some competition_id) (Some base_url)
                       (dict_get RESULT_URLS (lit "codabench")) (Some now) None
                       (Some phase_id) None (Some codabench_method_used) None rows in
          (Ok payload, [EFetch; EWrite payload])
      end.

Definition cache_missing : exn := RuntimeError (lit "Cache missing").

(** [_codalab_load_or_fetch_from_results_csv]; [remote] is what fetching and
    reading the results CSV gives, or the exception it raises. *)
Definition _codalab_load_or_fetch_from_results_csv (cache : cache_file)
           (refresh : bool) (base_url : str) (competition_id results_id : Z)
           (source_name : str) (remote : result (list csv_row)) (now : str)
  : outcome :=
  if (cache_exists cache && negb refresh)%bool
  then match read_cache cache with
       | Raise e => (Raise e, [])
       | Ok cached =>
           (Ok cached,
            if _is_placeholder_payload cached then [EWarn WarnPlaceholderCache] else [])
       end
  else if (negb refresh && negb (cache_exists cache))%bool
  then (Raise cache_missing, [])
  else
    match (dict_rows <- remote ;; _parse_generic_leaderboard_rows dict_rows) with
    | Raise e => (Raise e, [EFetch])
    | Ok rows =>
        match dict_get RESULT_URLS source_name with
        | None => (Raise (RuntimeError (lit "KeyError")), [EFetch])
        | Some url =>
            let payload :=
              mk_payload (Some source_name) (Some competition_id) (Some base_url)
                         (Some url) (Some now) None None (Some results_id) None None
                         rows in
            (Ok payload, [EFetch; EWrite payload])
        end
    end.

(** The body of [_codalab_load_or_fetch], with [self] for the function
    itself.  [remote] is what lines 774 to 780 and the parsing of the
    leaderboard data give: the phase id and the rows, or the exception. *)
Definition codalab_body (self : bool -> outcome) (cache : cache_file)
           (refresh : bool) (base_url : str) (competition_id : Z)
           (source_name : str) (remote : result (Z * list row)) (now : str)
  : outcome :=
  if (cache_exists cache && negb refresh)%bool
  then match read_cache cache with
       | Raise e => (Raise e, [])
       | Ok cached =>
           if negb (_is_placeholder_payload cached) then (Ok cached, [])
           else match self true with
                | (Ok p, ev) => (Ok p, ev)
                | (Raise e, ev) => (Ok cached, ev ++ [EWarn (WarnInitRefreshFailed e)])
                end
       end
  else if (negb refresh && negb (cache_exists cache))%bool
  then (Raise cache_missing, [])
  else
    match remote with
    | Raise e => (Raise e, [EFetch])
    | Ok (phase_id, rows) =>
        match dict_get RESULT_URLS source_name with
        | None => (Raise (RuntimeError (lit "KeyError")), [EFetch])
        | Some url =>
            let payload :=
              mk_payload (Some source_name) (Some competition_id) (Some base_url)
                         (Some url) (Some now) None None None None (Some phase_id)
                         rows in
            (Ok payload, [EFetch; EWrite payload])
        end
    end.

(** [_codalab_load_or_fetch].  Its one recursive call passes [refresh=True],
    and a call with [refresh=True] makes no recursive call, so two levels
    of the body are the whole function. *)
Definition _codalab_load_or_fetch (cache : cache_file) (refresh : bool)
           (base_url : str) (competition_id : Z) (source_name : str)
           (remote : result (Z * list row)) (now : str) : outcome :=
  codalab_body
    (fun refresh' =>
       codalab_body (fun _ => (Raise (RuntimeError (lit "RecursionError")), []))
                    cache refresh' base_url competition_id source_name remote now)
    cache refresh base_url competition_id source_name remote now.

(** The calls of the fetch step in a run. *)
Definition fetch_count (ev : list event) : nat :=
  length (filter (fun e => match e with EFetch => true | _ => false end) ev).

Definition warned (ev : list event) : bool :=
  existsb (fun e => match e with EWarn _ => true | _ => false end) ev.

(** ** Combiner *)

(** The number a float that is not infinite denotes. *)
Definition finite_value (x : pyfloat) : Q :=
  match x with
  | Finite q => q
  | _ => 0%Q
  end.

(** The comparison of two floats. *)
Definition float_compare (x y : pyfloat) : comparison :=
  match x, y with
  | NegInf, NegInf => Eq
  | NegInf, _ => Lt
  | _, NegInf => Gt
  | PosInf, PosInf => Eq
  | PosInf, _ => Gt
  | _, PosInf => Lt
  | _, _ => Qcompare (finite_value x) (finite_value y)
  end.

(** The order of [str]: by code point, a proper prefix first. *)
Fixpoint str_compare (a b : str) : comparison :=
  match a, b with
  | [], [] => Eq
  | [], _ :: _ => Lt
  | _ :: _, [] => Gt
  | x :: a', y :: b' =>
      match N.compare (N_of_ascii x) (N_of_ascii y) with
      | Eq => str_compare a' b'
      | c => c
      end
  end.

Definition sort_key : Type := pyfloat * pyfloat * pyfloat * pyfloat * str.

(** The inner function [val] of [_metric_sort_key]: a missing metric is
    minus infinity. *)
Definition val (v : option pyfloat) : pyfloat :=
  match v with
  | Some x => x
  | None => NegInf
  end.

(** [_metric_sort_key] *)
Definition _metric_sort_key (r : row) : sort_key :=
  (val (r_auc r), val (r_mrr r), val (r_ndcg5 r), val (r_ndcg10 r),
   or_empty (r_team r)).

Definition then_compare (c : comparison) (d : comparison) : comparison :=
  match c with Eq => d | _ => c end.

(** The order of tuples: by the first component that differs. *)
Definition key_compare (k1 k2 : sort_key) : comparison :=
  let '(a1, m1, f1, t1, n1) := k1 in
  let '(a2, m2, f2, t2, n2) := k2 in
  then_compare (float_compare a1 a2)
    (then_compare (float_compare m1 m2)
       (then_compare (float_compare f1 f2)
          (then_compare (float_compare t1 t2) (str_compare n1 n2)))).

Definition key_ltb (k1 k2 : sort_key) : bool :=
  match key_compare k1 k2 with Lt => true | _ => false end.

(** [l.sort(key=key, reverse=True)].  Python's sort is stable, also when
    reversed: the result is in descending key order and elements whose keys
    are equal keep their order.  There is one such arrangement, and this
    insertion sort computes it. *)
Section Sort.
Context {A K : Type}.
Variable key : A -> K.
Variable ltb : K -> K -> bool.

Fixpoint insert_desc (x : A) (l : list A) : list A :=
  match l with
  | [] => [x]
  | y :: t => if ltb (key x) (key y) then y :: insert_desc x t else x :: l
  end.

Definition sort_reverse (l : list A) : list A := fold_right insert_desc [] l.
End Sort.

Record source_meta : Type := mk_meta {
  m_source : str;
  m_competition_id : option Z;
  m_results_url : option str;
  m_fetched_at : option str
}.

Record combined : Type := mk_combined {
  c_generated_at : str;
  c_sources : list source_meta;
  c_rows : list row
}.

Definition set_stamp (source : str) (comp_id : option Z) (url : option str) (r : row)
  : row :=
  mk_row (r_team r) (r_auc r) (r_mrr r) (r_ndcg5 r) (r_ndcg10 r)
         (r_date_iso r) (r_date_raw r) (r_date_display r)
         (Some source) comp_id url (r_rank r).

Definition set_rank (i : nat) (r : row) : row :=
  mk_row (r_team r) (r_auc r) (r_mrr r) (r_ndcg5 r) (r_ndcg10 r)
         (r_date_iso r) (r_date_raw r) (r_date_display r)
         (r_source r) (r_competition_id r) (r_results_url r) (Some i).

(** [payload.get("source") or "unknown"] *)
Definition source_of (p : payload) : str :=
  match p_source p with
  | Some ((_ :: _) as s) => s
  | _ => lit "unknown"
  end.

(** [payload.get("results_url") or RESULT_URLS.get(source)] *)
Definition results_url_of (p : payload) : option str :=
  match p_results_url p with
  | Some ((_ :: _) as u) => Some u
  | _ => dict_get RESULT_URLS (source_of p)
  end.

(** The rows one snapshot adds to [combined_rows]. *)
Definition stamped_rows (p : payload) : list row :=
  map (set_stamp (source_of p) (p_competition_id p) (results_url_of p)) (p_rows p).

(** The entry one snapshot adds to [sources_meta]. *)
Definition meta_of (p : payload) : list source_meta :=
  match p_rows p with
  | [] => []
  | _ => [mk_meta (source_of p) (p_competition_id p) (results_url_of p) (p_fetched_at p)]
  end.

(** [for i, r in enumerate(rows, 1): r["rank"] = i] *)
Definition assign_ranks (rows : list row) : list row :=
  map (fun ir => set_rank (fst ir) (snd ir)) (enumerate_from 1 rows).

(** [_combine_sources]; [now] is [_utc_now_iso()]. *)
Definition _combine_sources (source_payloads : list payload) (now : str) : combined :=
  let combined_rows := flat_map stamped_rows source_payloads in
  let sources_meta := flat_map meta_of source_payloads in
  let combined_rows := sort_reverse _metric_sort_key key_ltb combined_rows in
  mk_combined now sources_meta (assign_ranks combined_rows).

(** ** Renderer *)

Definition dq : ascii := "034"%char.
Definition nl : ascii := "010"%char.

(** ["{:.4f}".format(x)]: the exact value rounded to four decimals, ties to
    the even digit. *)
Definition format_4f (x : Q) : str :=
  let n := Z.abs (Qnum x) in
  let d := Zpos (Qden x) in
  let scaled := (n * 10000)%Z in
  let q := (scaled / d)%Z in
  let rem := (scaled mod d)%Z in
  let m := if (d <? 2 * rem)%Z then (q + 1)%Z
           else if ((2 * rem =? d) && Z.odd q)%Z%bool then (q + 1)%Z
           else q in
  (if (Qnum x <? 0)%Z then lit "-" else [])
    ++ str_of_N (Z.to_N (m / 10000)) ++ lit "." ++ zero_pad 4 (Z.to_N (m mod 10000)).

(** The inner function [fmt_metric]: [float(None)] raises and gives [""]. *)
Definition fmt_metric (v : option pyfloat) : str :=
  match v with
  | Some (Finite x) => format_4f x
  | Some NegZero => lit "-0.0000"
  | Some PosInf => lit "inf"
  | Some NegInf => lit "-inf"
  | None => []
  end.

(** [r.get("date_display") or r.get("date_raw") or ""] *)
Definition date_text_of (r : row) : str :=
  match r_date_display r with
  | Some ((_ :: _) as d) => d
  | _ => or_empty (r_date_raw r)
  end.

(** [r.get("rank") or i] *)
Definition rank_of (i : nat) (r : row) : nat :=
  match r_rank r with
  | Some (S n) => S n
  | _ => i
  end.

(** The lines appended to [out] for the [i]-th row. *)
Definition render_row (i : nat) (r : row) : list str :=
  let cls := if Nat.eqb (i mod 2) 1 then lit "leaderboardline"
             else lit "leaderboardlinemask" in
  let td_open := lit "                                <td class=" ++ [dq]
                 ++ lit "word-break" ++ [dq] ++ lit ">" in
  let td_close := lit "                                </td>" in
  let metric v := lit "                                    <b>" ++ fmt_metric v
                  ++ lit "</b>" in
  [ lit "                            <tr class='" ++ cls ++ lit "'>";
    lit "                                <td>";
    lit "                                    <p class=" ++ [dq] ++ lit "word-break2"
      ++ [dq] ++ lit ">";
    lit "                                        " ++ str_of_N (N.of_nat (rank_of i r));
    lit "                                    </p><span class=" ++ [dq]
      ++ lit "date label label-default" ++ [dq] ++ lit ">" ++ date_text_of r
      ++ lit "</span>";
    td_close;
    td_open;
    lit "                                    " ++ or_empty (r_team r);
    td_close;
    td_open; metric (r_auc r); td_close;
    td_open; metric (r_mrr r); td_close;
    td_open; metric (r_ndcg5 r); td_close;
    td_open; metric (r_ndcg10 r); td_close;
    lit "                            </tr>" ].

(** [sep.join(l)] *)
Fixpoint join (sep : str) (l : list str) : str :=
  match l with
  | [] => []
  | [x] => x
  | x :: t => x ++ sep ++ join sep t
  end.

(** [_render_leaderboard_rows_html] *)
Definition _render_leaderboard_rows_html (rows : list row) : str :=
  let out := flat_map (fun ir => render_row (fst ir) (snd ir)) (enumerate_from 1 rows) in
  join [nl] out ++ match out with [] => [] | _ => [nl] end.

Definition anchor_tag : str := lit "<h1 id=" ++ [dq] ++ lit "leaderboard" ++ [dq] ++ lit ">".
Definition table_tag : str :=
  lit "<table class=" ++ [dq] ++ lit "table performanceTable" ++ [dq].
Definition table_close : str := lit "</table>".

Definition header_html : str :=
  join [nl]
    [ lit "                        <table class=" ++ [dq] ++ lit "table performanceTable"
        ++ [dq] ++ lit ">";
      lit "                            <tr class='leaderboardhead'>";
      lit "                                <th>";
      lit "                                    Rank";
      lit "                                </th>";
      lit "                                <th>";
      lit "                                    Team";
      lit "                                </th>";
      lit "                                <th>";
      lit "                                    AUC";
      lit "                                </th>";
      lit "                                <th>";
      lit "                                    MRR";
      lit "                                </th>";
      lit "                                <th>";
      lit "                                    nDCG@5";
      lit "                                </th>";
      lit "                                <th>";
      lit "                                    nDCG@10";
      lit "                                </th>";
      lit "                            </tr>" ].

(** [new_table_html] of [_update_index_html_leaderboard]. *)
Definition new_table_html (c : combined) : str :=
  header_html ++ [nl] ++ _render_leaderboard_rows_html (c_rows c)
    ++ lit "                        </table>".

(** The index of the last [c] in [s]. *)
Fixpoint last_index (c : ascii) (s : str) : option nat :=
  match s with
  | [] => None
  | x :: t =>
      match last_index c t with
      | Some i => Some (S i)
      | None => if Ascii.eqb x c then Some 0 else None
      end
  end.

(** [s.rfind(c, 0, hi)] for a one-character [c]. *)
Definition py_rfind_char (c : ascii) (s : str) (hi : nat) : option nat :=
  last_index c (firstn hi s).

Definition expect_str (p : str) (s : str) : option str :=
  if prefixb p s then Some (skipn (length p) s) else None.

Definition script_src : str :=
  lit "src=" ++ [dq] ++ lit "./assets/data/leaderboard.js" ++ [dq] ++ lit "></script>".

(** The expression
    [\s*<script\s+src="\./assets/data/leaderboard\.js"></script>\s*<script[\s\S]*?</script>]
    matched at the head of [s]: the text after the match.  Each run of white
    space is followed by a character that is not white space and the last
    part is lazy, so the greedy run and the first [</script>] are the only
    way to match. *)
Definition match_legacy_script (s : str) : option str :=
  obind (expect_str (lit "<script") (lstrip s)) (fun s2 =>
  match s2 with
  | c :: _ =>
      if is_space c
      then
        obind (expect_str script_src (lstrip s2)) (fun s4 =>
        obind (expect_str (lit "<script") (lstrip s4)) (fun s6 =>
        obind (find_first (lit "</script>") s6) (fun i =>
        Some (skipn (i + length (lit "</script>")) s6))))
      else None
  | [] => None
  end).

(** [re.sub(pattern, "", s, count=1)] for that expression: the leftmost match
    is cut out. *)
Fixpoint sub_legacy_script (s : str) : str :=
  match match_legacy_script s with
  | Some rest => rest
  | None =>
      match s with
      | [] => []
      | c :: t => c :: sub_legacy_script t
      end
  end.

(** [_update_index_html_leaderboard]: from the text of the file to
    the text written back. *)
Definition _update_index_html_leaderboard (html : str) (c : combined) : result str :=
  match py_find anchor_tag html 0 with
  | None => Raise (RuntimeError (lit "Could not find leaderboard section in index.html"))
  | Some anchor =>
  match py_find table_tag html anchor with
  | None => Raise (RuntimeError (lit "Could not find leaderboard table in index.html"))
  | Some table_start =>
  let table_replace_start :=
    match py_rfind_char nl html table_start with
    | Some line_start => line_start + 1
    | None => table_start
    end in
  match py_find table_close html table_start with
  | None => Raise (RuntimeError (lit "Could not find end of leaderboard table in index.html"))
  | Some table_end =>
  let table_end := table_end + length table_close in
  let html2 := firstn table_replace_start html ++ new_table_html c
               ++ skipn table_end html in
  Ok (sub_legacy_script html2)
  end end end.

(** ** Sample data *)

Definition sample_remote : codabench_remote :=
  mk_remote (Ok ([Some (lit "Team"); Some (lit "AUC")], [[lit "a"; lit "0.5"]]))
            (Raise HTTP403).

Definition sample_row : row :=
  mk_row (Some (lit "a")) (Some (Finite (1 # 2))) None None None None None None
         None None None None.

Definition sample_snapshot : payload :=
  mk_payload (Some (lit "codabench")) (Some 13955%Z) None None
             (Some (lit "2024-05-01T00:00:00Z")) None None None None None
             [sample_row].

Definition sample_placeholder : payload :=
  mk_payload (Some (lit "codalab-new")) (Some 420%Z) None None
             (Some (lit "1970-01-01T00:00:00Z")) None None None None None [].

(** ** Vocabulary of the statements *)

Definition all_digits (s : str) : Prop := forallb is_digit s = true.

(** An unsigned decimal numeral: digits, then possibly a dot and digits. *)
Definition unsigned_numeral (m : str) : Prop :=
  exists ds fr,
    m = ds ++ fr /\ ds <> [] /\ all_digits ds
    /\ (fr = [] \/ exists fs, fr = "."%char :: fs /\ fs <> [] /\ all_digits fs).

(** A signed decimal numeral: an unsigned one, possibly after [-] or [+]. *)
Definition numeral (m : str) : Prop :=
  unsigned_numeral m
  \/ exists c mu, m = c :: mu /\ is_sign c = true /\ unsigned_numeral mu.

(** [m] is the first numeral of [s]: no numeral starts further left, and no
    longer one starts at the same place. *)
Definition first_numeral (s m : str) : Prop :=
  exists pre post,
    s = pre ++ m ++ post /\ numeral m
    /\ forall pre' m' post',
         s = pre' ++ m' ++ post' -> numeral m' ->
         length pre <= length pre'
         /\ (length pre' = length pre -> length m' <= length m).

(** No numeral occurs in [s]. *)
Definition no_numeral (s : str) : Prop :=
  forall pre m post, s = pre ++ m ++ post -> ~ numeral m.

(** The parts of the numeral [m]: [neg] for a leading [-], the digits [ds]
    before the dot and the digits [fs] after it. *)
Definition numeral_parts (m : str) (neg : bool) (ds fs : str) : Prop :=
  exists sg,
    m = sg ++ ds ++ match fs with [] => [] | _ => "."%char :: fs end
    /\ (sg = [] \/ sg = ["-"%char] \/ sg = ["+"%char])
    /\ neg = str_eqb sg ["-"%char]
    /\ ds <> [] /\ all_digits ds /\ all_digits fs.

(** The number the numeral denotes, its sign apart. *)
Definition numeral_value (ds fs : str) : Q :=
  (inject_Z (Z.of_N (digits_val ds))
   + Qmake (Z.of_N (digits_val fs)) (pow10 (length fs)))%Q.

(** The float of the numeral: the binary64 value nearest to the number it
    denotes. *)
Definition float_of_numeral (neg : bool) (ds fs : str) : pyfloat :=
  binary64_of neg (Z.of_N (digits_val (ds ++ fs))) (pow10 (length fs)).

Definition nonempty (t : str) : bool :=
  match t with [] => false | _ => true end.

(** The pieces into which the white-space characters of a text cut it: the
    first piece and the others. *)
Fixpoint pieces (s : str) : str * list str :=
  match s with
  | [] => ([], [])
  | c :: t =>
      let '(w, ws) := pieces t in
      if is_space c then ([], w :: ws) else (c :: w, ws)
  end.

(** The words of a text: the pieces that are not empty. *)
Definition words (s : str) : list str :=
  filter nonempty (fst (pieces s) :: snd (pieces s)).

Definition blank : str := [" "%char].

(** The normal form of a header or candidate as the specification has it:
    case folded, white space collapsed, that is, the words of the folded
    text with one blank between them. *)
Definition normal_form (s : str) : str := join blank (words (casefold s)).

(** A text ends a word: its last character, if any, is not white space. *)
Definition ends_word (t : str) : Prop :=
  forall u c, t = u ++ [c] -> is_space c = false.

(** A header matches a candidate exactly: their normal forms are equal. *)
Definition exact_match (candidates : list str) (h : str) : bool :=
  existsb (str_eqb (normal_form h)) (map normal_form candidates).

(** A header matches by substring: the normal form of a candidate occurs in
    the normal form of the header.  [with_empty] says whether a candidate
    whose normal form is empty counts. *)
Definition substring_match (with_empty : bool) (candidates : list str) (h : str)
  : bool :=
  existsb (fun c => ((with_empty || negb (str_eqb c []))
                     && contains c (normal_form h))%bool)
          (map normal_form candidates).

(** The two passes over the headers, in header order. *)
Definition two_passes (with_empty : bool) (headers : list str) (candidates : list str)
  : option str :=
  match find (exact_match candidates) headers with
  | Some h => Some h
  | None => find (substring_match with_empty candidates) headers
  end.

(** Two resolutions agree: both fail, or they give the headers at one place
    of the two lists. *)
Definition same_column (hs hs' : list str) (r r' : option str) : Prop :=
  (r = None /\ r' = None)
  \/ exists i h h',
       nth_error hs i = Some h /\ nth_error hs' i = Some h'
       /\ r = Some h /\ r' = Some h'.

(** The keys of a [dict] built from a list: each key once, at its first
    place. *)
Definition add_key (acc : list str) (k : str) : list str :=
  if existsb (str_eqb k) acc then acc else acc ++ [k].

(** The name [h] stands at the place [i] of the header line of a scraped
    table and at no later place: [i] is the column the name has. *)
Definition last_position (headers : list (option str)) (h : str) (i : nat) : Prop :=
  nth_error headers i = Some (Some h)
  /\ forall j, i < j -> nth_error headers j <> Some (Some h).

(** The text [t] of the field [h] of a row read from CSV: the value the row
    has for [h], and the empty text when it has none. *)
Definition field_text (r : csv_row) (h : str) (t : str) : Prop :=
  (forall v, In (h, Some v) r -> t = v)
  /\ ((forall v, ~ In (h, Some v) r) -> t = []).

(** A normaliser kept the raw rows with the team texts [texts]: a raw row
    whose text is empty once stripped gives no row, any other gives one row,
    with the stripped text as its team, and the rows stand in the order of
    the raw rows. *)
Definition kept_in_order (texts : list str) (rows : list row) : Prop :=
  exists per_row,
    Forall2 (fun t out =>
               (strip t = [] /\ out = [])
               \/ (strip t <> [] /\ exists x, out = [x] /\ r_team x = Some (strip t)))
            texts per_row
    /\ rows = concat per_row.

(** The no-break space, white space for [str.strip]. *)
Definition nbsp : ascii := ascii_of_nat 160.

(** The display form of the day [d] of the month [m] of the year [y], read
    back by [_parse_date_any]. *)
Definition read_back_display (y m d : N) : option datetime :=
  _parse_date_any (_format_date_display (Some (mk_datetime y m d 0 0 0 0 None))).

(** The days of the year [y], each by its month and its day in the month. *)
Definition days_of_year (y : N) : list (N * N) :=
  flat_map (fun m => map (fun d => (m, N.of_nat d))
                         (seq 1 (N.to_nat (days_in_month y m))))
           (map N.of_nat (seq 1 12)).

(** A three-way comparison that is a total preorder: [Eq] is an
    equivalence the comparison respects, and [Lt] is transitive. *)
Class TotalCompare {A : Type} (cmp : A -> A -> comparison) : Prop := {
  cmp_refl : forall x, cmp x x = Eq;
  cmp_antisym : forall x y, cmp y x = CompOpp (cmp x y);
  cmp_lt_trans : forall x y z, cmp x y = Lt -> cmp y z = Lt -> cmp x z = Lt;
  cmp_eq_compat : forall x y z, cmp x y = Eq -> cmp x z = cmp y z
}.

(** The order of two comparisons, the first one deciding unless it is [Eq]. *)
Definition lex_compare {A B} (ca : A -> A -> comparison) (cb : B -> B -> comparison)
           (x y : A * B) : comparison :=
  then_compare (ca (fst x) (fst y)) (cb (snd x) (snd y)).

(** The rows [a] and [b] have the same sort key. *)
Definition same_key (a b : row) : Prop :=
  key_compare (_metric_sort_key a) (_metric_sort_key b) = Eq.

(** [a] may stand before [b] in descending key order. *)
Definition key_ge (a b : row) : Prop :=
  key_compare (_metric_sort_key a) (_metric_sort_key b) <> Lt.

(** The extended real line. *)
Inductive extended : Type :=
| MinusInfinity
| Real (q : Q)
| PlusInfinity.

(** The place of a metric on it, a missing one being minus infinity. *)
Definition place (v : option pyfloat) : extended :=
  match v with
  | None | Some NegInf => MinusInfinity
  | Some PosInf => PlusInfinity
  | Some NegZero => Real 0
  | Some (Finite q) => Real q
  end.

(** A metric is below another. *)
Definition metric_lt (a b : option pyfloat) : Prop :=
  match place a, place b with
  | MinusInfinity, MinusInfinity => False
  | MinusInfinity, _ => True
  | Real x, Real y => (x < y)%Q
  | Real _, PlusInfinity => True
  | _, _ => False
  end.

Definition metric_eq (a b : option pyfloat) : Prop :=
  match place a, place b with
  | MinusInfinity, MinusInfinity => True
  | Real x, Real y => (x == y)%Q
  | PlusInfinity, PlusInfinity => True
  | _, _ => False
  end.

(** [a] is before [b] in the order of the text: one character of [a] is
    below the character of [b] at the first place where they differ, or [a]
    is a proper prefix of [b]. *)
Definition str_lt (a b : str) : Prop := str_compare a b = Lt.

(** The descending order the specification describes, on rows: the first of
    auc, mrr, ndcg5, ndcg10 and team that differs is greater in [a]. *)
Definition ranks_before (a b : row) : Prop :=
  metric_lt (r_auc b) (r_auc a)
  \/ (metric_eq (r_auc a) (r_auc b)
      /\ (metric_lt (r_mrr b) (r_mrr a)
          \/ (metric_eq (r_mrr a) (r_mrr b)
              /\ (metric_lt (r_ndcg5 b) (r_ndcg5 a)
                  \/ (metric_eq (r_ndcg5 a) (r_ndcg5 b)
                      /\ (metric_lt (r_ndcg10 b) (r_ndcg10 a)
                          \/ (metric_eq (r_ndcg10 a) (r_ndcg10 b)
                              /\ str_lt (or_empty (r_team b)) (or_empty (r_team a))))))))).

(** The row without its rank. *)
Definition unranked (r : row) : row :=
  mk_row (r_team r) (r_auc r) (r_mrr r) (r_ndcg5 r) (r_ndcg10 r)
         (r_date_iso r) (r_date_raw r) (r_date_display r)
         (r_source r) (r_competition_id r) (r_results_url r) None.

(** The test [<] of a three-way comparison. *)
Definition ltb_of {K} (cmp : K -> K -> comparison) (k1 k2 : K) : bool :=
  match cmp k1 k2 with Lt => true | _ => false end.

Definition ranked_row (team : String.string) (rank : nat) : row :=
  mk_row (Some (lit team)) (Some (Finite (7 # 10))) (Some (Finite (3 # 10))) None None
         None None None (Some (lit "codabench")) (Some 13955%Z)
         (dict_get RESULT_URLS (lit "codabench")) (Some rank).

Definition tie_snapshot (source team : String.string) : payload :=
  mk_payload (Some (lit source)) (Some 1%Z) None None (Some (lit "2024-05-01T00:00:00Z"))
             None None None None None
             [mk_row (Some (lit team)) (Some (Finite (7 # 10))) (Some (Finite (3 # 10))) None None
                     None None None None None None None].

Definition two_ties : payload :=
  mk_payload (Some (lit "codabench")) (Some 13955%Z) None None
             (Some (lit "2024-05-01T00:00:00Z")) None None None None None
             [unranked (ranked_row "Alpha" 0); unranked (ranked_row "Beta" 0)].

(** The row [r] has the sort key [k]. *)
Definition has_key (k : sort_key) (r : row) : bool :=
  match key_compare (_metric_sort_key r) k with Eq => true | _ => false end.

(** Where the first injection finds the table in [html]: the heading at [a],
    the table tag at [ts], the last line break before it at [ls], after the
    end of the heading, and the closing tag at [te]. *)
Definition table_on_later_line (html : str) (a ts ls te : nat) : Prop :=
  py_find anchor_tag html 0 = Some a
  /\ py_find table_tag html a = Some ts
  /\ py_rfind_char nl html ts = Some ls
  /\ a + length anchor_tag <= ls
  /\ py_find table_close html ts = Some te.

Definition indent24 : str := repeat " "%char 24.

Definition closing_line : str := lit "                        </table>".

(** A page with the heading and the table on lines of their own, and the
    legacy script block after the table. *)
Definition sample_page : str :=
  lit "<html>" ++ [nl] ++ anchor_tag ++ lit "Leaderboard</h1>" ++ [nl]
    ++ lit "  " ++ table_tag ++ lit "><tr><td>old</td></tr></table>" ++ [nl]
    ++ lit "  <script " ++ script_src ++ [nl] ++ lit "  <script>render();</script>" ++ [nl]
    ++ lit "</html>".

(** A page with the heading and the table on one line. *)
Definition one_line_page : str :=
  lit "<html>" ++ [nl] ++ anchor_tag ++ lit "Leaderboard</h1>" ++ table_tag
    ++ lit "></table>" ++ [nl] ++ lit "</html>".

Definition sample_combined : combined :=
  mk_combined (lit "2024-06-01T00:00:00Z") [] [ranked_row "Beta" 1; ranked_row "Alpha" 2].

(** The header of the new table after its indentation and table tag. *)
Definition header_tail : str := skipn 61 header_html.

(** A leaderboard with a team name that holds a closing table tag. *)
Definition unescaped_combined : combined :=
  mk_combined (lit "2024-06-01T00:00:00Z") []
    [mk_row (Some (lit "</table>")) None None None None None None None
            None None None (Some 1)].

(** A page with no line break before the table tag. *)
Definition first_line_page : str :=
  anchor_tag ++ lit "Leaderboard</h1>" ++ table_tag ++ lit "></table>".

(** * Properties *)

(** ** Checks of the embedding on concrete inputs *)

Example norm_key_ex :
  _norm_key (Some (lit "  Date  Of
 Last Entry ")) = lit "date of last entry".
Proof. reflexivity. Qed.

Example parse_float_ex1 :
  _parse_float (Some (lit "1,234.5")) = Ok (Some (Finite (2469 # 2))).
Proof. vm_compute. reflexivity. Qed.

Example parse_float_ex2 :
  _parse_float (Some (lit "abc -.5e3")) = Ok (Some (Finite 5)).
Proof. vm_compute. reflexivity. Qed.

Example find_column_ex :
  _find_column [Some (lit "Rank"); Some (lit "Team Name"); Some (lit " AUC ")]
               [lit "auc"] = Some (lit " AUC ").
Proof. vm_compute. reflexivity. Qed.

Example parse_date_ex1 :
  _parse_date_any (Some (lit "2021-10-05"))
  = Some (mk_datetime 2021 10 5 0 0 0 0 None).
Proof. vm_compute. reflexivity. Qed.

Example parse_date_ex2 :
  _parse_date_any (Some (lit "2021-10-05T12:30:01Z"))
  = Some (mk_datetime 2021 10 5 12 30 1 0 (Some 0%Z)).
Proof. vm_compute. reflexivity. Qed.

Example parse_date_ex3 :
  _parse_date_any (Some (lit "october 5,  2021"))
  = Some (mk_datetime 2021 10 5 0 0 0 0 None).
Proof. vm_compute. reflexivity. Qed.

Example parse_date_ex4 :
  _format_date_display (_parse_date_any (Some (lit "Sep. 5, 2021")))
  = Some (lit "Sept. 05, 2021").
Proof. vm_compute. reflexivity. Qed.

Example parse_date_ex5 : _parse_date_any (Some (lit "Sept. 05, 2021")) = None.
Proof. vm_compute. reflexivity. Qed.

Example parse_date_ex6 :
  _date_iso (_parse_date_any (Some (lit "Feb 29, 2020"))) = Some (lit "2020-02-29")
  /\ _parse_date_any (Some (lit "Feb 29, 2021")) = None.
Proof. vm_compute. split; reflexivity. Qed.

Example parse_table_ex :
  _codabench_parse_table
    [Some (lit "Rank"); Some (lit "Participant"); Some (lit "AUC"); Some (lit "Date")]
    [[lit "1"; lit " alice "; lit "0.75"; lit "2024-01-31"];
     [lit "2"; lit "   "; lit "0.9"; lit ""];
     [lit "3"; lit "bob"]]
  = Ok [mk_row (Some (lit "alice")) (Some (Finite (3 # 4))) None None None
               (Some (lit "2024-01-31")) None (Some (lit "Jan. 31, 2024"))
               None None None None;
        mk_row (Some (lit "bob")) None None None None None None None
               None None None None].
Proof. vm_compute. reflexivity. Qed.

Example parse_generic_ex :
  _parse_generic_leaderboard_rows
    [[(lit "Team Name", Some (lit "x")); (lit "auc", Some (lit "0.5"));
      (lit "Date of Last Entry", Some (lit "Sept. 05, 2021"))];
     [(lit "Team Name", Some (lit "  ")); (lit "auc", Some (lit "0.9"));
      (lit "Date of Last Entry", None)]]
  = Ok [mk_row (Some (lit "x")) (Some (Finite (1 # 2))) None None None
               None (Some (lit "Sept. 05, 2021")) (Some (lit "Sept. 05, 2021"))
               None None None None].
Proof. vm_compute. reflexivity. Qed.

(** ** Source cache manager *)

Lemma codalab_body_refresh self1 self2 cache base cid src remote now :
  codalab_body self1 cache true base cid src remote now
  = codalab_body self2 cache true base cid src remote now.
Proof.
  unfold codalab_body. rewrite !andb_false_r. reflexivity.
Qed.

(** The fetch step of [_codabench_load_or_fetch] runs when the cache is not
    served and the method is valid, and then once. *)
Lemma codabench_fetch_count cache refresh base cid method remote now :
  fetch_count (snd (_codabench_load_or_fetch cache refresh base cid method remote now))
  = if (cache_exists cache && negb refresh)%bool then 0
    else if valid_method (normal_method method) then 1 else 0.
Proof.
  unfold _codabench_load_or_fetch.
  destruct (cache_exists cache && negb refresh)%bool eqn:Hserve.
  - destruct (read_cache cache) as [cached|e]; simpl; [|reflexivity].
    destruct (_is_placeholder_payload cached); reflexivity.
  - destruct (valid_method (normal_method method)); simpl; [|reflexivity].
    destruct (_fetch_rows _ remote) as [[used rows]|e]; simpl; [reflexivity|].
    destruct (cache_exists cache); [|reflexivity].
    destruct (read_cache cache) as [cached|e']; [|reflexivity].
    destruct (_is_placeholder_payload cached); reflexivity.
Qed.

(** In [_codabench_load_or_fetch], when the fetch step runs and fails with
    [e]: a cached snapshot that is not a placeholder is returned, after a
    warning and without an exception; with no cache file, or with a cached
    placeholder, [e] itself reaches the caller; and whenever the cache holds
    no snapshot that is not a placeholder, the call raises. *)
Lemma codabench_fetch_failure cache refresh base cid method remote now e :
  let out := _codabench_load_or_fetch cache refresh base cid method remote now in
  In EFetch (snd out) ->
  _fetch_rows (normal_method method) remote = Raise e ->
  (forall cached, cache = Snapshot cached -> _is_placeholder_payload cached = false ->
     out = (Ok cached, [EFetch; EWarn (WarnRefreshFailedUsingCache e)]))
  /\ (cache = NoFile -> out = (Raise e, [EFetch]))
  /\ (forall cached, cache = Snapshot cached -> _is_placeholder_payload cached = true ->
        out = (Raise e, [EFetch]))
  /\ ((forall cached, cache = Snapshot cached -> _is_placeholder_payload cached = true) ->
      exists e', fst out = Raise e').
Proof.
  intros out Hfetch Hfail. subst out. revert Hfetch.
  unfold _codabench_load_or_fetch.
  destruct (cache_exists cache && negb refresh)%bool eqn:Hserve.
  { intros H; exfalso.
    destruct (read_cache cache) as [cached|e0]; simpl in H; [|exact H].
    destruct (_is_placeholder_payload cached); simpl in H;
      intuition discriminate. }
  destruct (valid_method (normal_method method)); simpl; [|tauto].
  rewrite Hfail. intros _.
  repeat split.
  - intros cached -> Hp. simpl. rewrite Hp. reflexivity.
  - intros ->. reflexivity.
  - intros cached -> Hp. simpl. rewrite Hp. reflexivity.
  - intros Hall. destruct cache as [| |cached]; simpl.
    + eexists; reflexivity.
    + eexists; reflexivity.
    + rewrite (Hall cached eq_refl). simpl. eexists; reflexivity.
Qed.

(** In [_codalab_load_or_fetch_from_results_csv], when the fetch step runs
    and fails with [e], [e] reaches the caller whatever the cache holds. *)
Lemma results_csv_fetch_failure cache refresh base cid rid src now e :
  let out := _codalab_load_or_fetch_from_results_csv cache refresh base cid rid src
               (Raise e) now in
  In EFetch (snd out) -> out = (Raise e, [EFetch]).
Proof.
  unfold _codalab_load_or_fetch_from_results_csv.
  destruct (cache_exists cache && negb refresh)%bool.
  { intros H; exfalso.
    destruct (read_cache cache) as [cached|e0]; simpl in H; [|exact H].
    destruct (_is_placeholder_payload cached); simpl in H;
      intuition discriminate. }
  destruct (negb refresh && negb (cache_exists cache))%bool; simpl; [tauto|].
  reflexivity.
Qed.

(** In [_codalab_load_or_fetch], when the fetch step runs and fails with
    [e]: on a call with [refresh] the exception reaches the caller whatever
    the cache holds; on a call without, the fetch was the one made for a
    cached placeholder, which is returned after a warning. *)
Lemma codalab_fetch_failure cache refresh base cid src now e :
  let out := _codalab_load_or_fetch cache refresh base cid src (Raise e) now in
  In EFetch (snd out) ->
  (refresh = true /\ out = (Raise e, [EFetch]))
  \/ (refresh = false
      /\ exists cached,
           cache = Snapshot cached /\ _is_placeholder_payload cached = true
           /\ out = (Ok cached, [EFetch; EWarn (WarnInitRefreshFailed e)])).
Proof.
  unfold _codalab_load_or_fetch, codalab_body.
  destruct refresh.
  - rewrite !andb_false_r. simpl. intros _. left. auto.
  - destruct cache as [| |cached]; simpl; try tauto.
    destruct (_is_placeholder_payload cached) eqn:Hp; simpl; [|tauto].
    intros _. right. split; [reflexivity|]. exists cached. auto.
Qed.

(** C3, as stated, fails for the two CodaLab loaders.  Over a cached
    snapshot that is no placeholder, a refresh that fails raises: there is
    no warning and the cached snapshot is not returned.  And over a cached
    placeholder, the failure of the fetch [_codalab_load_or_fetch] makes
    does not reach the caller. *)
Lemma codalab_refresh_failure_raises_over_valid_cache :
  _is_placeholder_payload sample_snapshot = false
  /\ _codalab_load_or_fetch_from_results_csv (Snapshot sample_snapshot) true
       (lit "https://competitions.codalab.org") 24122%Z 563%Z (lit "codalab-old")
       (Raise HTTP403) (lit "2024-06-01T00:00:00Z")
     = (Raise HTTP403, [EFetch])
  /\ _codalab_load_or_fetch (Snapshot sample_snapshot) true
       (lit "https://codalab.lisn.upsaclay.fr") 420%Z (lit "codalab-new")
       (Raise HTTP403) (lit "2024-06-01T00:00:00Z")
     = (Raise HTTP403, [EFetch])
  /\ _is_placeholder_payload sample_placeholder = true
  /\ _codalab_load_or_fetch (Snapshot sample_placeholder) false
       (lit "https://codalab.lisn.upsaclay.fr") 420%Z (lit "codalab-new")
       (Raise HTTP403) (lit "2024-06-01T00:00:00Z")
     = (Ok sample_placeholder, [EFetch; EWarn (WarnInitRefreshFailed HTTP403)]).
Proof. vm_compute. repeat split; reflexivity. Qed.

(** C3, amended.  When the fetch step of a loader runs and fails with [e]:
    - [_codabench_load_or_fetch] returns a cached snapshot that is not a
      placeholder, after a warning and without an exception; with no cache
      file, or with a cached placeholder, [e] itself reaches the caller; and
      whenever the cache holds no snapshot that is not a placeholder, the
      call raises;
    - [_codalab_load_or_fetch_from_results_csv] lets [e] reach the caller
      whatever the cache holds;
    - [_codalab_load_or_fetch] lets [e] reach the caller on a call with
      [refresh], whatever the cache holds; on a call without, the fetch was
      the one made for a cached placeholder, and the placeholder is returned
      after a warning. *)
Theorem fetch_failure_by_loader cache refresh base cid now e :
  (forall method remote,
     let out := _codabench_load_or_fetch cache refresh base cid method remote now in
     In EFetch (snd out) ->
     _fetch_rows (normal_method method) remote = Raise e ->
     (forall cached, cache = Snapshot cached -> _is_placeholder_payload cached = false ->
        out = (Ok cached, [EFetch; EWarn (WarnRefreshFailedUsingCache e)]))
     /\ (cache = NoFile -> out = (Raise e, [EFetch]))
     /\ (forall cached, cache = Snapshot cached -> _is_placeholder_payload cached = true ->
           out = (Raise e, [EFetch]))
     /\ ((forall cached, cache = Snapshot cached ->
                         _is_placeholder_payload cached = true) ->
         exists e', fst out = Raise e'))
  /\ (forall rid src,
        let out := _codalab_load_or_fetch_from_results_csv cache refresh base cid rid
                     src (Raise e) now in
        In EFetch (snd out) -> out = (Raise e, [EFetch]))
  /\ (forall src,
        let out := _codalab_load_or_fetch cache refresh base cid src (Raise e) now in
        In EFetch (snd out) ->
        (refresh = true /\ out = (Raise e, [EFetch]))
        \/ (refresh = false
            /\ exists cached,
                 cache = Snapshot cached /\ _is_placeholder_payload cached = true
                 /\ out = (Ok cached, [EFetch; EWarn (WarnInitRefreshFailed e)]))).
Proof.
  split; [|split].
  - intros method remote. apply codabench_fetch_failure.
  - intros rid src. apply results_csv_fetch_failure.
  - intros src. apply codalab_fetch_failure.
Qed.

(** Witness of C3: a refresh that fails with HTTP 403 on the CSV export,
    over a cached snapshot with one row. *)
Lemma fetch_failure_by_loader_witness :
  _codabench_load_or_fetch (Snapshot sample_snapshot) true (lit "https://www.codabench.org")
    13955%Z (Some (lit "csv")) sample_remote (lit "2024-06-01T00:00:00Z")
  = (Ok sample_snapshot, [EFetch; EWarn (WarnRefreshFailedUsingCache HTTP403)]).
Proof.
  refine (proj1 (proj1 (fetch_failure_by_loader
                          (Snapshot sample_snapshot) true (lit "https://www.codabench.org")
                          13955%Z (lit "2024-06-01T00:00:00Z") HTTP403)
                       (Some (lit "csv")) sample_remote _ _)
                sample_snapshot eq_refl _).
  - vm_compute. left. reflexivity.
  - vm_compute. reflexivity.
  - vm_compute. reflexivity.
Defined.

(** C4, as stated, fails for CodaBench: with no cache file and no refresh
    requested, [_codabench_load_or_fetch] fetches and returns the new
    snapshot. *)
Lemma codabench_no_cache_fetches :
  let out := _codabench_load_or_fetch NoFile false (lit "https://www.codabench.org")
               13955%Z (Some (lit "scrape")) sample_remote (lit "2024-06-01T00:00:00Z") in
  fetch_count (snd out) = 1
  /\ (exists p, fst out = Ok p /\ p_rows p = [sample_row])
  /\ ~ (fst out = Raise cache_missing /\ fetch_count (snd out) = 0).
Proof.
  vm_compute. split; [reflexivity|]. split.
  - eexists. split; reflexivity.
  - intros [H _]. discriminate H.
Qed.

(** C4, amended.  With no cache file and [refresh] false, both CodaLab
    loaders raise the missing-cache error and do nothing else, no fetch
    included; the CodaBench loader has no such check and runs its fetch step
    (once, when the method is one of the three it knows). *)
Theorem missing_cache_without_refresh
        base cid rid src (remote_csv : result (list csv_row))
        (remote_api : result (Z * list row)) method remote now :
  _codalab_load_or_fetch_from_results_csv NoFile false base cid rid src remote_csv now
  = (Raise cache_missing, [])
  /\ _codalab_load_or_fetch NoFile false base cid src remote_api now
     = (Raise cache_missing, [])
  /\ fetch_count (snd (_codabench_load_or_fetch NoFile false base cid method remote now))
     = (if valid_method (normal_method method) then 1 else 0).
Proof.
  split; [reflexivity|]. split; [reflexivity|].
  rewrite codabench_fetch_count. reflexivity.
Qed.

(** C5, as stated, fails for the results-CSV loader (and for CodaBench): a
    cached placeholder is returned with a warning and no fetch is attempted. *)
Lemma results_csv_placeholder_not_fetched :
  _is_placeholder_payload sample_placeholder = true
  /\ forall remote,
       let out := _codalab_load_or_fetch_from_results_csv (Snapshot sample_placeholder)
                    false (lit "https://codalab.lisn.upsaclay.fr") 420%Z 563%Z
                    (lit "codalab-new") remote (lit "2024-06-01T00:00:00Z") in
       fetch_count (snd out) = 0 /\ fetch_count (snd out) <> 1.
Proof.
  split; [reflexivity|]. intros remote. vm_compute. split; [reflexivity|discriminate].
Qed.

(** C5, amended.  On a cached placeholder with [refresh] false,
    [_codalab_load_or_fetch] runs its fetch step exactly once and never
    raises: when the fetch fails it returns the placeholder after a warning.
    The results-CSV loader and the CodaBench loader return the placeholder
    after a warning without any fetch. *)
Theorem placeholder_cache_without_refresh
        cached base cid rid src (remote_api : result (Z * list row))
        (remote_csv : result (list csv_row)) method remote now :
  _is_placeholder_payload cached = true ->
  (let out := _codalab_load_or_fetch (Snapshot cached) false base cid src remote_api now in
   fetch_count (snd out) = 1
   /\ (exists p, fst out = Ok p)
   /\ (forall e, remote_api = Raise e ->
         out = (Ok cached, [EFetch; EWarn (WarnInitRefreshFailed e)])))
  /\ _codalab_load_or_fetch_from_results_csv (Snapshot cached) false base cid rid src
       remote_csv now
     = (Ok cached, [EWarn WarnPlaceholderCache])
  /\ _codabench_load_or_fetch (Snapshot cached) false base cid method remote now
     = (Ok cached, [EWarn WarnPlaceholderCache]).
Proof.
  intros Hp. split; [|split].
  - unfold _codalab_load_or_fetch, codalab_body.
    cbn -[dict_get RESULT_URLS]. rewrite Hp. cbn -[dict_get RESULT_URLS].
    destruct remote_api as [[phase_id rows]|e].
    + destruct (dict_get RESULT_URLS src) as [url|]; cbn.
      * split; [reflexivity|]. split; [eexists; reflexivity|]. intros e H. discriminate H.
      * split; [reflexivity|]. split; [eexists; reflexivity|]. intros e H. discriminate H.
    + cbn. split; [reflexivity|]. split; [eexists; reflexivity|].
      intros e' H. injection H as ->. reflexivity.
  - unfold _codalab_load_or_fetch_from_results_csv. simpl. rewrite Hp. reflexivity.
  - unfold _codabench_load_or_fetch. simpl. rewrite Hp. reflexivity.
Qed.

Lemma placeholder_cache_without_refresh_witness :
  _codalab_load_or_fetch (Snapshot sample_placeholder) false
    (lit "https://codalab.lisn.upsaclay.fr") 420%Z (lit "codalab-new")
    (Raise (FetchError (lit "timed out"))) (lit "2024-06-01T00:00:00Z")
  = (Ok sample_placeholder,
     [EFetch; EWarn (WarnInitRefreshFailed (FetchError (lit "timed out")))]).
Proof.
  refine (proj2 (proj2 (proj1 (placeholder_cache_without_refresh
            sample_placeholder (lit "https://codalab.lisn.upsaclay.fr") 420%Z 563%Z
            (lit "codalab-new") (Raise (FetchError (lit "timed out"))) (Raise HTTP403)
            None sample_remote (lit "2024-06-01T00:00:00Z") _))) _ eq_refl).
  vm_compute. reflexivity.
Defined.

(** ** Value normaliser: numbers *)

Lemma span_digits_spec s ds r :
  span_digits s = (ds, r) ->
  s = ds ++ r /\ all_digits ds
  /\ match r with c :: _ => is_digit c = false | [] => True end.
Proof.
  revert ds r. induction s as [|c t IH]; intros ds r H; simpl in H.
  - injection H as <- <-. repeat split.
  - destruct (is_digit c) eqn:Hc.
    + destruct (span_digits t) as [ds' r'] eqn:Ht.
      injection H as <- <-.
      destruct (IH ds' r' eq_refl) as (-> & Hd & Hr).
      split; [reflexivity|]. split; [|exact Hr].
      unfold all_digits. simpl. rewrite Hc. exact Hd.
    + injection H as <- <-. repeat split. exact Hc.
Qed.

(** The digits [span_digits] takes are the longest prefix of digits. *)
Lemma span_digits_longest ds' post ds r :
  all_digits ds' -> span_digits (ds' ++ post) = (ds, r) ->
  exists k, ds = ds' ++ k.
Proof.
  revert ds r. induction ds' as [|c t IH]; intros ds r Hd H.
  - exists ds. reflexivity.
  - unfold all_digits in Hd. simpl in Hd. apply andb_prop in Hd as [Hc Ht].
    simpl in H. rewrite Hc in H.
    destruct (span_digits (t ++ post)) as [ds0 r0] eqn:E.
    injection H as <- <-.
    destruct (IH ds0 r0 Ht eq_refl) as [k ->]. exists k. reflexivity.
Qed.

Lemma span_digits_stop ds' c post :
  all_digits ds' -> is_digit c = false ->
  span_digits (ds' ++ c :: post) = (ds', c :: post).
Proof.
  intros Hd Hc. induction ds' as [|d t IH]; simpl.
  - rewrite Hc. reflexivity.
  - unfold all_digits in Hd. simpl in Hd. apply andb_prop in Hd as [Hd1 Hd2].
    rewrite Hd1, (IH Hd2). reflexivity.
Qed.

Lemma dot_not_digit c : Ascii.eqb c "." = true -> is_digit c = false.
Proof. intros H. apply Ascii.eqb_eq in H. subst c. reflexivity. Qed.

Lemma sign_not_digit c : is_sign c = true -> is_digit c = false.
Proof.
  unfold is_sign. intros H. apply orb_prop in H as [H|H];
    apply Ascii.eqb_eq in H; subst c; reflexivity.
Qed.

Lemma match_unsigned_sound s m r :
  match_unsigned s = Some (m, r) -> s = m ++ r /\ unsigned_numeral m.
Proof.
  unfold match_unsigned. intros H.
  destruct (span_digits s) as [ds r0] eqn:E.
  destruct (span_digits_spec _ _ _ E) as (-> & Hd & Hr).
  destruct ds as [|d ds]; [discriminate H|].
  assert (Hbase : unsigned_numeral (d :: ds)).
  { exists (d :: ds), []. rewrite app_nil_r. repeat split; auto. discriminate. }
  destruct r0 as [|c t].
  { injection H as <- <-. split; [reflexivity|exact Hbase]. }
  destruct (Ascii.eqb c ".") eqn:Hc.
  - destruct (span_digits t) as [fs r'] eqn:E2.
    destruct (span_digits_spec _ _ _ E2) as (-> & Hfd & _).
    destruct fs as [|f fs].
    + injection H as <- <-. split; [reflexivity|exact Hbase].
    + injection H as <- <-. split.
      * simpl. f_equal. rewrite <- app_assoc. reflexivity.
      * exists (d :: ds), (c :: f :: fs). repeat split; auto; [discriminate|].
        right. exists (f :: fs). apply Ascii.eqb_eq in Hc. subst c.
        repeat split; auto. discriminate.
  - injection H as <- <-. split; [reflexivity|exact Hbase].
Qed.

Lemma match_unsigned_none s :
  match_unsigned s = None ->
  match s with c :: _ => is_digit c = false | [] => True end.
Proof.
  unfold match_unsigned. destruct s as [|c t]; [trivial|]. simpl.
  destruct (is_digit c); [|reflexivity].
  destruct (span_digits t) as [ds r]. intros H.
  destruct r as [|c' t']; [discriminate H|].
  destruct (Ascii.eqb c' "."); [|discriminate H].
  destruct (span_digits t') as [fs r']. destruct fs; discriminate H.
Qed.

Lemma unsigned_numeral_head m post :
  unsigned_numeral m -> exists c t, m ++ post = c :: t /\ is_digit c = true.
Proof.
  intros (ds & fr & -> & Hne & Hd & _).
  destruct ds as [|c ds]; [contradiction|].
  exists c, ((ds ++ fr) ++ post). split; [reflexivity|].
  unfold all_digits in Hd. simpl in Hd. apply andb_prop in Hd. tauto.
Qed.

Lemma match_unsigned_longest s m r m' post' :
  match_unsigned s = Some (m, r) -> s = m' ++ post' -> unsigned_numeral m' ->
  length m' <= length m.
Proof.
  unfold match_unsigned. intros H Hs (ds' & fr' & -> & Hne' & Hd' & Hfr').
  destruct (span_digits s) as [ds r0] eqn:E.
  destruct Hfr' as [->|(fs' & -> & Hfne & Hfd)].
  - (* no fraction in m' *)
    rewrite app_nil_r in *. subst s.
    destruct (span_digits_longest _ _ _ _ Hd' E) as [k ->].
    destruct (ds' ++ k) as [|d l] eqn:Edk; [discriminate H|]. rewrite <- Edk in *.
    assert (length (ds' ++ k) <= length m).
    { destruct r0 as [|c t]; [injection H as <- _; lia|].
      destruct (Ascii.eqb c "."); [|injection H as <- _; lia].
      destruct (span_digits t) as [fs r']. rewrite Edk in H. rewrite Edk.
      destruct fs; injection H as <- _; [lia|].
      simpl. rewrite length_app. lia. }
    rewrite length_app in *. lia.
  - (* a fraction in m' *)
    subst s. rewrite <- !app_assoc in E. simpl in E.
    rewrite (span_digits_stop ds' "."%char (fs' ++ post') Hd' eq_refl) in E.
    injection E as <- <-.
    destruct ds' as [|d l]; [contradiction|].
    simpl in H.
    destruct (span_digits (fs' ++ post')) as [fs r'] eqn:E2.
    destruct (span_digits_longest _ _ _ _ Hfd E2) as [k ->].
    destruct (fs' ++ k) as [|f l'] eqn:Efk.
    { destruct fs'; [contradiction|discriminate Efk]. }
    rewrite <- Efk in H. injection H as <- _.
    simpl. rewrite !length_app. simpl. rewrite !length_app. lia.
Qed.

Lemma match_unsigned_not_digit c t :
  is_digit c = false -> match_unsigned (c :: t) = None.
Proof. intros H. unfold match_unsigned. simpl. rewrite H. reflexivity. Qed.

Lemma match_unsigned_complete m post :
  unsigned_numeral m -> match_unsigned (m ++ post) <> None.
Proof.
  intros Hm Hnone. apply match_unsigned_none in Hnone.
  destruct (unsigned_numeral_head m post Hm) as (c & t & E & Hc).
  rewrite E in Hnone. congruence.
Qed.

Lemma match_number_sound s m r :
  match_number s = Some (m, r) -> s = m ++ r /\ numeral m.
Proof.
  unfold match_number. intros H.
  assert (Hu : match_unsigned s = Some (m, r) -> s = m ++ r /\ numeral m).
  { intros Hu. apply match_unsigned_sound in Hu as [-> Hu]. split; [reflexivity|].
    left. exact Hu. }
  destruct s as [|c t]; [exact (Hu H)|].
  destruct (is_sign c) eqn:Hc; [|exact (Hu H)].
  destruct (match_unsigned t) as [[mu ru]|] eqn:Et; [|exact (Hu H)].
  injection H as <- <-. apply match_unsigned_sound in Et as [-> Hmu].
  split; [reflexivity|]. right. exists c, mu. auto.
Qed.

Lemma match_number_complete m post :
  numeral m -> match_number (m ++ post) <> None.
Proof.
  intros [Hm|(c & mu & -> & Hc & Hmu)]; unfold match_number.
  - pose proof (match_unsigned_complete m post Hm) as Hne.
    destruct (m ++ post) as [|c t]; [exact Hne|].
    destruct (is_sign c); [|exact Hne].
    destruct (match_unsigned t) as [[mu ru]|]; [discriminate|exact Hne].
  - simpl. rewrite Hc.
    pose proof (match_unsigned_complete mu post Hmu) as Hne.
    destruct (match_unsigned (mu ++ post)) as [[m' r']|]; [discriminate|congruence].
Qed.

Lemma match_number_longest s m r m' post' :
  match_number s = Some (m, r) -> s = m' ++ post' -> numeral m' ->
  length m' <= length m.
Proof.
  unfold match_number. intros H Hs Hm'.
  destruct s as [|c t].
  { destruct m' as [|x m'']; [simpl; lia|discriminate Hs]. }
  destruct (is_sign c) eqn:Hc.
  - (* the text starts with a sign: so does any numeral at its head *)
    rewrite (match_unsigned_not_digit c t (sign_not_digit c Hc)) in H.
    destruct (match_unsigned t) as [[mu ru]|] eqn:Et; [|discriminate H].
    injection H as <- <-.
    destruct Hm' as [Hu|(c' & mu' & -> & _ & Hmu')].
    + destruct (unsigned_numeral_head m' post' Hu) as (c' & t' & E & Hd).
      rewrite <- Hs in E. injection E as <- _.
      rewrite (sign_not_digit c Hc) in Hd. discriminate Hd.
    + simpl in Hs. injection Hs as _ Ht. simpl.
      apply le_n_S. exact (match_unsigned_longest t mu ru mu' post' Et Ht Hmu').
  - destruct Hm' as [Hu|(c' & mu' & -> & Hc' & _)].
    + exact (match_unsigned_longest _ m r m' post' H Hs Hu).
    + simpl in Hs. injection Hs as <- _. congruence.
Qed.

Lemma search_number_first s m :
  search_number s = Some m -> first_numeral s m.
Proof.
  revert m. induction s as [|c t IH]; intros m H.
  - simpl in H. discriminate H.
  - cbn [search_number] in H.
    destruct (match_number (c :: t)) as [[m0 r0]|] eqn:E.
    + injection H as ->. destruct (match_number_sound _ _ _ E) as [Hs Hm].
      exists [], r0. split; [exact Hs|]. split; [exact Hm|].
      intros pre' m' post' Hs' Hm'. split; [simpl; lia|].
      intros Hl. destruct pre'; [|discriminate Hl].
      exact (match_number_longest _ _ _ m' post' E Hs' Hm').
    + destruct (IH m H) as (pre & post & -> & Hm & Hfirst).
      exists (c :: pre), post. split; [reflexivity|]. split; [exact Hm|].
      intros pre' m' post' Hs' Hm'.
      destruct pre' as [|x pre''].
      * exfalso. simpl in Hs'. rewrite Hs' in E.
        exact (match_number_complete m' post' Hm' E).
      * simpl in Hs'. injection Hs' as <- Ht.
        destruct (Hfirst pre'' m' post' Ht Hm') as [H1 H2].
        split; [simpl; lia|]. intros Hl. apply H2. simpl in Hl. lia.
Qed.

Lemma search_number_none s :
  search_number s = None -> no_numeral s.
Proof.
  induction s as [|c t IH]; intros H pre m post Hs Hm.
  - destruct pre; [|discriminate Hs]. simpl in Hs.
    apply (match_number_complete m post Hm). rewrite <- Hs. reflexivity.
  - cbn [search_number] in H.
    destruct (match_number (c :: t)) as [[m0 r0]|] eqn:E; [discriminate H|].
    destruct pre as [|x pre'].
    + simpl in Hs. rewrite Hs in E. exact (match_number_complete m post Hm E).
    + simpl in Hs. injection Hs as _ Ht. exact (IH H pre' m post Ht Hm).
Qed.

Lemma span_digits_all ds : all_digits ds -> span_digits ds = (ds, []).
Proof.
  intros Hd. induction ds as [|d t IH]; [reflexivity|].
  unfold all_digits in Hd. simpl in Hd. apply andb_prop in Hd as [Hd1 Hd2].
  simpl. rewrite Hd1, (IH Hd2). reflexivity.
Qed.

Lemma digits_fold b x :
  fold_left (fun acc c => (10 * acc + digit_val c)%N) b x
  = (x * Npos (pow10 (length b)) + digits_val b)%N.
Proof.
  unfold digits_val. revert x. induction b as [|c t IH]; intros x.
  - simpl. lia.
  - cbn [fold_left length pow10]. rewrite IH, (IH (10 * 0 + digit_val c)%N). lia.
Qed.

Lemma digits_val_app a b :
  digits_val (a ++ b) = (digits_val a * Npos (pow10 (length b)) + digits_val b)%N.
Proof.
  unfold digits_val at 1. rewrite fold_left_app. apply digits_fold.
Qed.

Lemma str_eqb_eq a b : str_eqb a b = true <-> a = b.
Proof.
  unfold str_eqb. destruct (list_eq_dec ascii_dec a b); split; congruence.
Qed.

Lemma str_eqb_refl a : str_eqb a a = true.
Proof. apply str_eqb_eq. reflexivity. Qed.

(** [float] reads an unsigned numeral: the digits before and after the dot
    give the numerator, the number of digits after it the denominator. *)
Lemma decimal_parts_numeral m :
  unsigned_numeral m ->
  exists ds fs,
    decimal_parts m = Ok (Z.of_N (digits_val (ds ++ fs)), pow10 (length fs))
    /\ m = ds ++ match fs with [] => [] | _ => "."%char :: fs end
    /\ ds <> [] /\ all_digits ds /\ all_digits fs.
Proof.
  intros (ds & fr & -> & Hne & Hd & [->|(fs & -> & Hfne & Hfd)]).
  - exists ds, []. rewrite !app_nil_r.
    unfold decimal_parts. rewrite (span_digits_all ds Hd).
    destruct ds; [contradiction|].
    repeat split; auto.
  - exists ds, fs.
    unfold decimal_parts.
    rewrite (span_digits_stop ds "."%char fs Hd eq_refl).
    rewrite (span_digits_all fs Hfd). simpl.
    destruct (str_eqb (ds ++ fs) []) eqn:E.
    { apply str_eqb_eq in E. destruct ds; [contradiction|discriminate E]. }
    destruct fs as [|f fs']; [contradiction|].
    repeat split; auto.
Qed.

Lemma digit_not_sign c :
  is_digit c = true -> Ascii.eqb c "-" = false /\ Ascii.eqb c "+" = false.
Proof.
  intros H. split.
  - destruct (Ascii.eqb c "-") eqn:E; [|reflexivity].
    apply Ascii.eqb_eq in E. subst c. discriminate H.
  - destruct (Ascii.eqb c "+") eqn:E; [|reflexivity].
    apply Ascii.eqb_eq in E. subst c. discriminate H.
Qed.

(** [float] reads every signed numeral, as the float of its parts: the
    [ValueError] branch of [_parse_float] is never taken. *)
Lemma py_float_numeral m :
  numeral m ->
  exists neg ds fs,
    numeral_parts m neg ds fs /\ py_float m = Ok (float_of_numeral neg ds fs).
Proof.
  intros [Hu|(c & mu & -> & Hc & Hmu)].
  - destruct (decimal_parts_numeral m Hu) as (ds & fs & Hv & Hm & Hne & Hd & Hfd).
    exists false, ds, fs. split.
    + exists []. repeat split; auto.
    + destruct (unsigned_numeral_head m [] Hu) as (c & t & E & Hdc).
      rewrite app_nil_r in E. unfold py_float. rewrite E.
      destruct (digit_not_sign c Hdc) as [-> ->]. rewrite <- E, Hv. reflexivity.
  - destruct (decimal_parts_numeral mu Hmu) as (ds & fs & Hv & Hm & Hne & Hd & Hfd).
    unfold is_sign in Hc. apply orb_prop in Hc as [Hc|Hc]; apply Ascii.eqb_eq in Hc; subst c.
    + exists true, ds, fs. split.
      * exists ["-"%char]. rewrite Hm. repeat split; auto.
      * unfold py_float. simpl. rewrite Hv. reflexivity.
    + exists false, ds, fs. split.
      * exists ["+"%char]. rewrite Hm. repeat split; auto.
      * unfold py_float. simpl. rewrite Hv. reflexivity.
Qed.

(** The fraction [float] rounds is the number the numeral denotes. *)
Lemma float_of_numeral_value ds fs :
  Qeq (Qmake (Z.of_N (digits_val (ds ++ fs))) (pow10 (length fs)))
      (numeral_value ds fs).
Proof.
  unfold numeral_value. rewrite digits_val_app.
  unfold Qeq, Qplus, inject_Z. cbn [Qnum Qden]. lia.
Qed.

Lemma existsb_str_eqb x l : existsb (str_eqb x) l = true <-> In x l.
Proof.
  rewrite existsb_exists. split.
  - intros (y & Hy & E). apply str_eqb_eq in E. subst y. exact Hy.
  - intros H. exists x. split; [exact H|apply str_eqb_refl].
Qed.

Lemma parse_float_never_raises v : exists r, _parse_float v = Ok r.
Proof.
  destruct v as [t|]; [|eexists; reflexivity]. unfold _parse_float.
  destruct (_ || _)%bool; [eexists; reflexivity|].
  destruct (search_number (remove_char "," (strip t))) as [m|] eqn:E;
    [|eexists; reflexivity].
  pose proof (search_number_first _ _ E) as (pre & post & _ & Hm & _).
  destruct (py_float_numeral m Hm) as (neg & ds & fs & _ & ->). eexists; reflexivity.
Qed.

(** C8, as stated, fails on a numeral beyond the range of a float: what
    [_parse_float] returns for a one followed by 400 zeros is the infinite
    float, not the number the numeral denotes. *)
Lemma parse_float_overflows :
  _parse_float (Some (lit "1" ++ repeat "0"%char 400)) = Ok (Some PosInf).
Proof. vm_compute. reflexivity. Qed.

(** C8, amended.  [_parse_float] never raises.  It returns [None] for [None],
    for a text that is empty once stripped, for the sentinels [na], [n/a],
    [none], [null] and [-] (in any case), and when the text, commas removed,
    holds no decimal numeral.  Otherwise it returns the float of the first
    signed decimal numeral of the text with its commas removed: the binary64
    value nearest to the number the numeral denotes, which is infinite for a
    numeral beyond the range.  So [1,234.5] gives 1234.5, [n/a] and the empty
    text give [None], [0.1] gives the float next to one tenth, and a one
    followed by 400 zeros after a minus sign gives minus infinity. *)
Theorem parse_float_spec :
  (forall v, exists r, _parse_float v = Ok r)
  /\ _parse_float None = Ok None
  /\ (forall t,
        strip t = [] \/ In (lower (strip t)) float_sentinels
        \/ no_numeral (remove_char "," (strip t)) ->
        _parse_float (Some t) = Ok None)
  /\ (forall t,
        strip t <> [] -> ~ In (lower (strip t)) float_sentinels ->
        ~ no_numeral (remove_char "," (strip t)) ->
        exists m neg ds fs,
          first_numeral (remove_char "," (strip t)) m
          /\ numeral_parts m neg ds fs
          /\ _parse_float (Some t) = Ok (Some (float_of_numeral neg ds fs)))
  /\ _parse_float (Some (lit "1,234.5")) = Ok (Some (Finite (2469 # 2)))
  /\ _parse_float (Some (lit "n/a")) = Ok None
  /\ _parse_float (Some (lit "")) = Ok None
  /\ _parse_float (Some (lit "0.1"))
     = Ok (Some (Finite (3602879701896397 # 36028797018963968)))
  /\ _parse_float (Some (lit "-1" ++ repeat "0"%char 400)) = Ok (Some NegInf).
Proof.
  assert (Hsearch : forall t,
             str_eqb (strip t) [] = false ->
             existsb (str_eqb (lower (strip t))) float_sentinels = false ->
             (search_number (remove_char "," (strip t)) = None
              /\ _parse_float (Some t) = Ok None)
             \/ (exists m neg ds fs,
                    search_number (remove_char "," (strip t)) = Some m
                    /\ numeral_parts m neg ds fs
                    /\ _parse_float (Some t) = Ok (Some (float_of_numeral neg ds fs)))).
  { intros t H1 H2. unfold _parse_float. rewrite H1, H2. simpl.
    destruct (search_number (remove_char "," (strip t))) as [m|] eqn:E.
    - right. pose proof (search_number_first _ _ E) as (pre & post & _ & Hm & _).
      destruct (py_float_numeral m Hm) as (neg & ds & fs & Hparts & Hq).
      exists m, neg, ds, fs. rewrite Hq. auto.
    - left. auto. }
  split; [|split; [|split; [|split]]].
  - apply parse_float_never_raises.
  - reflexivity.
  - intros t H.
    destruct (str_eqb (strip t) []) eqn:H1.
    { unfold _parse_float. rewrite H1. reflexivity. }
    destruct (existsb (str_eqb (lower (strip t))) float_sentinels) eqn:H2.
    { unfold _parse_float. rewrite H1, H2. reflexivity. }
    destruct H as [H|[H|H]].
    + apply str_eqb_eq in H. congruence.
    + apply existsb_str_eqb in H. congruence.
    + destruct (Hsearch t H1 H2) as [[_ Hr]|(m & neg & ds & fs & E & _ & _)]; [exact Hr|].
      exfalso. destruct (search_number_first _ _ E) as (pre & post & Hs & Hm & _).
      exact (H pre m post Hs Hm).
  - intros t H1 H2 H3.
    assert (E1 : str_eqb (strip t) [] = false).
    { destruct (str_eqb (strip t) []) eqn:E; [|reflexivity].
      apply str_eqb_eq in E. contradiction. }
    assert (E2 : existsb (str_eqb (lower (strip t))) float_sentinels = false).
    { destruct (existsb _ float_sentinels) eqn:E; [|reflexivity].
      apply existsb_str_eqb in E. contradiction. }
    destruct (Hsearch t E1 E2) as [[E _]|(m & neg & ds & fs & E & Hparts & Hr)].
    + exfalso. exact (H3 (search_number_none _ E)).
    + exists m, neg, ds, fs. split; [exact (search_number_first _ _ E)|]. auto.
  - vm_compute. repeat split; reflexivity.
Qed.

Lemma parse_float_spec_witness :
  exists m neg ds fs,
    first_numeral (remove_char "," (strip (lit "1,234.5"))) m
    /\ numeral_parts m neg ds fs
    /\ _parse_float (Some (lit "1,234.5")) = Ok (Some (float_of_numeral neg ds fs)).
Proof.
  apply (proj1 (proj2 (proj2 (proj2 parse_float_spec))) (lit "1,234.5")).
  - vm_compute. discriminate.
  - vm_compute. intuition discriminate.
  - intros H. apply (H [] (lit "1234.5") [] eq_refl).
    left. exists (lit "1234"), (lit ".5").
    split; [reflexivity|]. split; [discriminate|]. split; [reflexivity|].
    right. exists (lit "5"). split; [reflexivity|]. split; [discriminate|reflexivity].
Defined.

(** ** Column resolver *)

Lemma prefixb_iff p s : prefixb p s = true <-> exists r, s = p ++ r.
Proof.
  revert s. induction p as [|a p IH]; intros s; simpl.
  - split; [intros _; exists s; reflexivity|reflexivity].
  - destruct s as [|b s].
    + split; [discriminate|]. intros [r H]. discriminate H.
    + rewrite andb_true_iff, Ascii.eqb_eq, IH. split.
      * intros [-> [r ->]]. exists r. reflexivity.
      * intros [r H]. injection H as -> ->. split; [reflexivity|]. exists r. reflexivity.
Qed.

(** [contains] is the substring test. *)
Lemma contains_iff p s :
  contains p s = true <-> exists pre post, s = pre ++ p ++ post.
Proof.
  unfold contains. induction s as [|c t IH]; cbn [find_first].
  - destruct (prefixb p []) eqn:E.
    + split; [|reflexivity]. intros _. apply prefixb_iff in E as [r E].
      exists [], r. exact E.
    + split; [discriminate|]. intros (pre & post & H).
      destruct pre; [|discriminate H]. simpl in H.
      assert (prefixb p [] = true) by (apply prefixb_iff; exists post; exact H).
      congruence.
  - destruct (prefixb p (c :: t)) eqn:E.
    + split; [|reflexivity]. intros _. apply prefixb_iff in E as [r E].
      exists [], r. exact E.
    + destruct (find_first p t) as [i|]; simpl in *.
      * split; [|reflexivity]. intros _.
        destruct (proj1 IH eq_refl) as (pre & post & ->).
        exists (c :: pre), post. reflexivity.
      * split; [discriminate|]. intros (pre & post & H).
        destruct pre as [|x pre].
        -- simpl in H.
           assert (prefixb p (c :: t) = true) by (apply prefixb_iff; exists post; exact H).
           congruence.
        -- injection H as _ H. apply IH. exists pre, post. exact H.
Qed.

Lemma dict_set_same {V} (g : str -> V) acc k :
  dict_set (map (fun h => (h, g h)) acc) k (g k)
  = map (fun h => (h, g h)) (add_key acc k).
Proof.
  unfold add_key. induction acc as [|a acc IH]; [reflexivity|].
  cbn [map dict_set existsb].
  destruct (str_eqb k a) eqn:E.
  - apply str_eqb_eq in E. subst a. reflexivity.
  - simpl. rewrite IH. destruct (existsb (str_eqb k) acc); reflexivity.
Qed.

Lemma dict_of_keys {V} (g : str -> V) l acc :
  fold_left (fun d kv => dict_set d (fst kv) (snd kv))
            (map (fun h => (h, g h)) l) (map (fun h => (h, g h)) acc)
  = map (fun h => (h, g h)) (fold_left add_key l acc).
Proof.
  revert acc. induction l as [|k l IH]; intros acc; [reflexivity|].
  cbn [map fold_left fst snd]. rewrite dict_set_same. apply IH.
Qed.

Lemma find_add_key q acc k :
  find q (add_key acc k)
  = match find q acc with
    | Some x => Some x
    | None => if q k then Some k else None
    end.
Proof.
  unfold add_key. destruct (existsb (str_eqb k) acc) eqn:E.
  - destruct (find q acc) eqn:F; [reflexivity|].
    apply existsb_str_eqb in E.
    rewrite (find_none q acc F k E). reflexivity.
  - induction acc as [|a acc IH]; [reflexivity|].
    simpl in E. apply orb_false_elim in E as [_ E].
    simpl. destruct (q a); [reflexivity|]. exact (IH E).
Qed.

Lemma find_dict_keys q l acc :
  find q (fold_left add_key l acc)
  = match find q acc with
    | Some x => Some x
    | None => find q l
    end.
Proof.
  revert acc. induction l as [|k l IH]; intros acc; cbn [fold_left find].
  - destruct (find q acc); reflexivity.
  - rewrite IH, find_add_key.
    destruct (find q acc); [reflexivity|]. destruct (q k); reflexivity.
Qed.

Lemma first_key_dict_of {V} (g : str -> V) (q : str * V -> bool) l :
  first_key q (dict_of (map (fun h => (h, g h)) l))
  = find (fun h => q (h, g h)) l.
Proof.
  unfold first_key, dict_of.
  pose proof (dict_of_keys g l []) as Hd.
  change (map (fun h => (h, g h)) []) with (@nil (str * V)) in Hd. rewrite Hd.
  clear Hd.
  transitivity (find (fun h => q (h, g h)) (fold_left add_key l [])).
  - induction (fold_left add_key l []) as [|a r IH]; [reflexivity|].
    simpl. destruct (q (a, g a)); [reflexivity|exact IH].
  - rewrite find_dict_keys. reflexivity.
Qed.

(** *** The normal form *)

(** A test on characters that holds of each of the 256 holds of all. *)
Lemma all_chars (P : ascii -> bool) :
  forallb P (map ascii_of_nat (seq 0 256)) = true -> forall c, P c = true.
Proof.
  intros H c. rewrite forallb_forall in H. apply H.
  rewrite <- (ascii_nat_embedding c). apply in_map. apply in_seq.
  pose proof (nat_ascii_bounded c). lia.
Qed.

(** Folding the case leaves white space as it is and makes none. *)
Lemma casefold_char_space c : is_space c = true -> casefold_char c = [c].
Proof.
  intros H.
  pose proof (all_chars (fun c => implb (is_space c) (str_eqb (casefold_char c) [c]))
                        eq_refl c) as Hc.
  cbv beta in Hc. rewrite H in Hc. apply str_eqb_eq. exact Hc.
Qed.

Lemma casefold_char_word c :
  is_space c = false ->
  exists d t, casefold_char c = d :: t
              /\ forallb (fun x => negb (is_space x)) (d :: t) = true.
Proof.
  intros H.
  pose proof (all_chars (fun c => (is_space c
                                   || (nonempty (casefold_char c)
                                       && forallb (fun x => negb (is_space x))
                                                  (casefold_char c)))%bool)
                        eq_refl c) as Hc.
  cbv beta in Hc. rewrite H in Hc. simpl in Hc.
  apply andb_prop in Hc as [H1 H2].
  destruct (casefold_char c) as [|d t]; [discriminate H1|].
  exists d, t. auto.
Qed.

Lemma casefold_app a b : casefold (a ++ b) = casefold a ++ casefold b.
Proof. apply flat_map_app. Qed.

Lemma casefold_all_space l : forallb is_space l = true -> casefold l = l.
Proof.
  induction l as [|c t IH]; [reflexivity|]. simpl. intros H.
  apply andb_prop in H as [H1 H2].
  change (casefold (c :: t)) with (casefold_char c ++ casefold t).
  rewrite (casefold_char_space c H1), (IH H2). reflexivity.
Qed.

Lemma ends_word_tail c t : ends_word (c :: t) -> ends_word t.
Proof. intros H u z E. apply (H (c :: u) z). rewrite E. reflexivity. Qed.

Lemma ends_word_app a b : b <> [] -> ends_word b -> ends_word (a ++ b).
Proof.
  intros Hb H u z E.
  destruct (exists_last Hb) as (b' & y & Eb). subst b.
  rewrite app_assoc in E. apply app_inj_tail in E as [_ <-].
  apply (H b' y). reflexivity.
Qed.

Lemma all_words_ends_word b :
  forallb (fun x => negb (is_space x)) b = true -> ends_word b.
Proof.
  intros H u z E. subst b. rewrite forallb_app in H.
  apply andb_prop in H as [_ H]. simpl in H.
  destruct (is_space z); [discriminate H|reflexivity].
Qed.

Lemma lstrip_spec s :
  exists l, s = l ++ lstrip s /\ forallb is_space l = true
            /\ match lstrip s with c :: _ => is_space c = false | [] => True end.
Proof.
  induction s as [|c t IH].
  - exists []. simpl. auto.
  - simpl. destruct (is_space c) eqn:E.
    + destruct IH as (l & H1 & H2 & H3). exists (c :: l). simpl.
      rewrite E, H2. split; [f_equal; exact H1|auto].
    + exists []. simpl. auto.
Qed.

Lemma rstrip_spec s :
  exists r, s = rstrip s ++ r /\ forallb is_space r = true /\ ends_word (rstrip s).
Proof.
  unfold rstrip. destruct (lstrip_spec (rev s)) as (l & H1 & H2 & H3).
  exists (rev l). split; [|split].
  - rewrite <- rev_app_distr, <- H1, rev_involutive. reflexivity.
  - apply forallb_forall. intros x Hx. apply in_rev in Hx.
    rewrite forallb_forall in H2. exact (H2 x Hx).
  - intros u c E. apply (f_equal (@rev ascii)) in E.
    rewrite rev_involutive, rev_app_distr in E. simpl in E.
    rewrite E in H3. exact H3.
Qed.

(** [strip] removes white space at the two ends, and all of it there. *)
Lemma strip_spec s :
  exists l r,
    s = l ++ strip s ++ r
    /\ forallb is_space l = true /\ forallb is_space r = true
    /\ match strip s with c :: _ => is_space c = false | [] => True end
    /\ ends_word (strip s).
Proof.
  unfold strip.
  destruct (lstrip_spec s) as (l & Hs & Hl & Hhead).
  destruct (rstrip_spec (lstrip s)) as (r & Hm & Hr & Hlast).
  exists l, r. split; [|split; [exact Hl|split; [exact Hr|split; [|exact Hlast]]]].
  - rewrite <- Hm. exact Hs.
  - rewrite Hm in Hhead. destruct (rstrip (lstrip s)); [exact I|exact Hhead].
Qed.

Lemma words_cons_space c t : is_space c = true -> words (c :: t) = words t.
Proof.
  intros E. unfold words. simpl. destruct (pieces t) as [w ws]. rewrite E.
  reflexivity.
Qed.

Lemma words_cons_word c t :
  is_space c = false ->
  words (c :: t) = (c :: fst (pieces t)) :: filter nonempty (snd (pieces t)).
Proof.
  intros E. unfold words. simpl. destruct (pieces t) as [w ws]. rewrite E.
  reflexivity.
Qed.

Lemma words_nil t : words t = [] -> forallb is_space t = true.
Proof.
  induction t as [|c t IH]; [reflexivity|]. simpl.
  destruct (is_space c) eqn:E.
  - rewrite (words_cons_space c t E). exact IH.
  - rewrite (words_cons_word c t E). discriminate.
Qed.

Lemma ends_word_words t : t <> [] -> ends_word t -> words t <> [].
Proof.
  intros Hne He Hw. apply words_nil in Hw.
  destruct (exists_last Hne) as (u & c & E). subst t.
  rewrite forallb_app in Hw. apply andb_prop in Hw as [_ Hw]. simpl in Hw.
  rewrite (He u c eq_refl) in Hw. discriminate Hw.
Qed.

Lemma words_app_space_l l x : forallb is_space l = true -> words (l ++ x) = words x.
Proof.
  induction l as [|c t IH]; [reflexivity|]. simpl. intros H.
  apply andb_prop in H as [H1 H2].
  rewrite (words_cons_space c (t ++ x) H1). exact (IH H2).
Qed.

Lemma pieces_app_space x r :
  forallb is_space r = true ->
  fst (pieces (x ++ r)) = fst (pieces x)
  /\ filter nonempty (snd (pieces (x ++ r))) = filter nonempty (snd (pieces x)).
Proof.
  intros Hr. induction x as [|c t IH].
  - simpl. induction r as [|c t IH]; [auto|].
    simpl in Hr. apply andb_prop in Hr as [H1 H2]. specialize (IH H2).
    simpl. destruct (pieces t) as [w ws]. rewrite H1. simpl in *.
    destruct IH as [-> ->]. auto.
  - simpl. destruct (pieces (t ++ r)) as [w ws], (pieces t) as [w' ws'].
    simpl in IH. destruct IH as [-> IH].
    destruct (is_space c); simpl; [|auto].
    rewrite IH. auto.
Qed.

Lemma words_app_space_r x r : forallb is_space r = true -> words (x ++ r) = words x.
Proof.
  intros Hr. unfold words. destruct (pieces_app_space x r Hr) as [H1 H2].
  simpl. rewrite H1, H2. reflexivity.
Qed.

(** On a text that ends a word, [re.sub(r"\s+", " ", t)] writes the words
    with one blank between them, after a blank when the text begins with
    white space. *)
Lemma sub_ws_words t :
  ends_word t ->
  sub_ws true t = join blank (words t)
  /\ sub_ws false t
     = match t with
       | c :: _ => if is_space c then blank ++ join blank (words t)
                   else join blank (words t)
       | [] => []
       end.
Proof.
  induction t as [|c t IH]; intros He; [split; reflexivity|].
  specialize (IH (ends_word_tail c t He)). destruct IH as [IH1 IH2].
  destruct (is_space c) eqn:E.
  - cbn [sub_ws]. rewrite E, (words_cons_space c t E), IH1. split; reflexivity.
  - cbn [sub_ws]. rewrite E, (words_cons_word c t E), IH2.
    destruct t as [|c' t'].
    + split; reflexivity.
    + destruct (is_space c') eqn:E'.
      * pose proof (ends_word_words (c' :: t') ltac:(discriminate)
                                    (ends_word_tail c _ He)) as Hne.
        unfold words in *. simpl in *. destruct (pieces t') as [w ws].
        rewrite E' in *. simpl in *.
        destruct (if nonempty w then w :: filter nonempty ws
                  else filter nonempty ws) as [|x rest]; [contradiction|].
        split; reflexivity.
      * unfold words. simpl. destruct (pieces t') as [w ws]. rewrite E'. simpl.
        destruct (filter nonempty ws); split; reflexivity.
Qed.

(** [_norm_key] gives the normal form of the specification. *)
Lemma norm_key_normal_form s : _norm_key (Some s) = normal_form s.
Proof.
  unfold _norm_key, normal_form.
  destruct (strip_spec s) as (l & r & Hs & Hl & Hr & Hhead & Hlast).
  remember (strip s) as m eqn:Em. clear Em. subst s.
  rewrite !casefold_app, (casefold_all_space l Hl), (casefold_all_space r Hr).
  rewrite (words_app_space_l l _ Hl), (words_app_space_r _ r Hr).
  destruct m as [|c t]; [reflexivity|].
  destruct (casefold_char_word c Hhead) as (d & k & Ec & Hk).
  assert (He : ends_word (casefold (c :: t))).
  { destruct (@exists_last _ (c :: t) ltac:(discriminate)) as (u & z & E).
    rewrite E, casefold_app. apply ends_word_app.
    - destruct (casefold_char_word z (Hlast u z E)) as (d' & k' & Ez & _).
      simpl. rewrite Ez. discriminate.
    - destruct (casefold_char_word z (Hlast u z E)) as (d' & k' & Ez & Hz).
      simpl. rewrite Ez, app_nil_r. apply all_words_ends_word. exact Hz. }
  rewrite (proj2 (sub_ws_words _ He)).
  change (casefold (c :: t)) with (casefold_char c ++ casefold t).
  rewrite Ec. simpl in Hk. apply andb_prop in Hk as [Hd _].
  simpl. destruct (is_space d); [discriminate Hd|reflexivity].
Qed.

(** *** The two passes *)

Lemma find_pointwise {A} (f g : A -> bool) l :
  (forall x, f x = g x) -> find f l = find g l.
Proof.
  intros H. induction l as [|a l IH]; [reflexivity|].
  simpl. rewrite <- H, IH. reflexivity.
Qed.

Lemma two_passes_ext {A} (f1 g1 f2 g2 : A -> bool) l :
  (forall x, f1 x = g1 x) -> (forall x, f2 x = g2 x) ->
  match find f1 l with Some h => Some h | None => find f2 l end
  = match find g1 l with Some h => Some h | None => find g2 l end.
Proof.
  intros H1 H2.
  rewrite (find_pointwise f1 g1 l H1), (find_pointwise f2 g2 l H2). reflexivity.
Qed.

(** [_find_column] is the two passes over the headers that are not [None];
    only a candidate whose normal form is not empty counts in the second. *)
Lemma find_column_two_passes headers candidates :
  _find_column headers candidates = two_passes false (not_none headers) candidates.
Proof.
  unfold _find_column, two_passes.
  rewrite !(first_key_dict_of (fun h => _norm_key (Some h))).
  rewrite (map_ext _ normal_form norm_key_normal_form).
  apply two_passes_ext; intros h; cbn [snd]; rewrite norm_key_normal_form;
    reflexivity.
Qed.

(** Over two lists with the same normal forms, a test of the normal form
    finds its first element at the same position. *)
Lemma find_same_position (q : str -> bool) hs hs' :
  map normal_form hs = map normal_form hs' ->
  same_column hs hs' (find (fun h => q (normal_form h)) hs)
                     (find (fun h => q (normal_form h)) hs').
Proof.
  revert hs'. induction hs as [|a l IH]; intros [|a' l'] E; try discriminate E.
  - left. auto.
  - cbn [map] in E. injection E as Ea El. cbn [find]. rewrite Ea.
    destruct (q (normal_form a')).
    + right. exists 0, a, a'. auto.
    + destruct (IH l' El) as [[H1 H2]|(i & h & h' & H1 & H2 & H3 & H4)].
      * left. auto.
      * right. exists (S i), h, h'. auto.
Qed.

Lemma two_passes_same_position hs hs' candidates :
  map normal_form hs = map normal_form hs' ->
  same_column hs hs' (two_passes false hs candidates)
                     (two_passes false hs' candidates).
Proof.
  intros H. unfold two_passes.
  pose proof (find_same_position
                (fun n => existsb (str_eqb n) (map normal_form candidates))
                hs hs' H) as H1.
  pose proof (find_same_position
                (fun n => existsb (fun c => ((false || negb (str_eqb c []))
                                               && contains c n)%bool)
                                  (map normal_form candidates))
                hs hs' H) as H2.
  unfold exact_match, substring_match.
  destruct H1 as [[-> ->]|(i & h & h' & Hi & Hi' & -> & ->)]; [exact H2|].
  right. exists i, h, h'. auto.
Qed.

Lemma not_none_normal_forms headers headers' :
  map (option_map normal_form) headers = map (option_map normal_form) headers' ->
  map normal_form (not_none headers) = map normal_form (not_none headers').
Proof.
  revert headers'. induction headers as [|[h|] t IH]; intros [|[h'|] t'] E;
    try discriminate E; try reflexivity.
  - cbn [map option_map] in E. injection E as E1 E2.
    cbn [not_none map]. rewrite E1, (IH t' E2). reflexivity.
  - cbn [map option_map] in E. injection E as E2. exact (IH t' E2).
Qed.

(** C9, as stated, fails when the normal form of a candidate is empty: that
    candidate is a substring of every header, yet the second pass skips it
    and no header is returned. *)
Lemma find_column_skips_empty_candidate :
  _find_column [Some (lit "AUC")] [lit " "] = None
  /\ contains (_norm_key (Some (lit " "))) (_norm_key (Some (lit "AUC"))) = true
  /\ two_passes true [lit "AUC"] [lit " "] = Some (lit "AUC").
Proof. vm_compute. auto. Qed.

(** C9, amended.  [_find_column] compares normal forms, and the normal form
    [_norm_key] computes is that of the specification: the case folded and
    each run of white space collapsed, which is the words of the folded text
    with one blank between them; so [AUC], [ auc ] and [Auc] have one normal
    form and each resolves for the candidate [auc].  [_find_column] takes the
    first header, in header order, whose normal form is that of a candidate;
    when there is none, the first header in whose normal form the normal form
    of a candidate occurs, unless that is empty; and [None] when there is
    none either.  Two header lists with the same normal forms at the same
    places resolve to the same place. *)
Theorem find_column_spec headers candidates :
  (_norm_key None = [] /\ forall s, _norm_key (Some s) = normal_form s)
  /\ _find_column headers candidates
     = match find (exact_match candidates) (not_none headers) with
       | Some h => Some h
       | None => find (substring_match false candidates) (not_none headers)
       end
  /\ (normal_form (lit "AUC") = lit "auc"
      /\ normal_form (lit " auc ") = lit "auc"
      /\ normal_form (lit "Auc") = lit "auc"
      /\ normal_form (lit "  Date  Of" ++ [nl] ++ lit " Last ENTRY ")
         = lit "date of last entry"
      /\ _find_column [Some (lit "Team"); Some (lit "AUC")] [lit "auc"]
         = Some (lit "AUC")
      /\ _find_column [Some (lit "Team"); Some (lit " auc ")] [lit "auc"]
         = Some (lit " auc ")
      /\ _find_column [Some (lit "Team"); Some (lit "Auc")] [lit "auc"]
         = Some (lit "Auc"))
  /\ (forall headers',
        map (option_map normal_form) headers
        = map (option_map normal_form) headers' ->
        same_column (not_none headers) (not_none headers')
                    (_find_column headers candidates)
                    (_find_column headers' candidates)).
Proof.
  split; [split; [reflexivity|apply norm_key_normal_form]|].
  split; [apply find_column_two_passes|]. split; [vm_compute; repeat split|].
  intros headers' H. rewrite !find_column_two_passes.
  apply two_passes_same_position. apply not_none_normal_forms. exact H.
Qed.

Lemma find_column_spec_witness :
  same_column (not_none [Some (lit "Team"); None; Some (lit " AUC ")])
              (not_none [Some (lit "TEAM "); None; Some (lit "Auc")])
              (_find_column [Some (lit "Team"); None; Some (lit " AUC ")] [lit "auc"])
              (_find_column [Some (lit "TEAM "); None; Some (lit "Auc")] [lit "auc"]).
Proof.
  apply (proj2 (proj2 (proj2 (find_column_spec
                                [Some (lit "Team"); None; Some (lit " AUC ")]
                                [lit "auc"])))
               [Some (lit "TEAM "); None; Some (lit "Auc")]).
  vm_compute. reflexivity.
Defined.

(** ** Row normaliser *)

(** [d[k] = v] then [d.get(k')]. *)
Lemma dict_get_set {V} (d : dict V) k v k' :
  dict_get (dict_set d k v) k' = if str_eqb k' k then Some v else dict_get d k'.
Proof.
  induction d as [|[k0 v0] d IH]; simpl; [reflexivity|].
  destruct (str_eqb k k0) eqn:E.
  - apply str_eqb_eq in E. subst k0. simpl. destruct (str_eqb k' k); reflexivity.
  - simpl. destruct (str_eqb k' k0) eqn:E0; [|exact IH].
    apply str_eqb_eq in E0. subst k0.
    destruct (str_eqb k' k) eqn:E1; [|reflexivity].
    apply str_eqb_eq in E1. subst k'. rewrite str_eqb_refl in E. discriminate E.
Qed.

(** In a [dict] the key [k] has the value [v] when the pair is one of its
    items. *)
Lemma dict_get_in {V} (r : dict V) k v :
  NoDup (map fst r) -> In (k, v) r -> dict_get r k = Some v.
Proof.
  induction r as [|[k0 v0] r IH]; intros Hnd Hin; [contradiction|].
  simpl in Hnd. inversion Hnd as [|? ? Hk0 Hnd']; subst.
  simpl. destruct Hin as [E|Hin].
  - injection E as -> ->. rewrite str_eqb_refl. reflexivity.
  - destruct (str_eqb k k0) eqn:E; [|exact (IH Hnd' Hin)].
    apply str_eqb_eq in E. subst k0. exfalso. apply Hk0.
    apply (in_map fst) in Hin. exact Hin.
Qed.

Lemma dict_get_some_in {V} (r : dict V) k v : dict_get r k = Some v -> In (k, v) r.
Proof.
  induction r as [|[k0 v0] r IH]; simpl; [discriminate|].
  destruct (str_eqb k k0) eqn:E.
  - apply str_eqb_eq in E. subst k0. intros H. injection H as ->. left. reflexivity.
  - intros H. right. exact (IH H).
Qed.

(** The index built from the header line gives a name its last place. *)
Lemma header_index_fold n hs (d : dict nat) h i :
  dict_get (fold_left (fun d kv => dict_set d (fst kv) (snd kv))
                      (flat_map (fun ih => match snd ih with
                                           | Some h => [(h, fst ih)]
                                           | None => []
                                           end)
                                (enumerate_from n hs)) d) h = Some i ->
  (exists j, i = n + j /\ last_position hs h j)
  \/ (dict_get d h = Some i /\ forall j, nth_error hs j <> Some (Some h)).
Proof.
  revert n d. induction hs as [|x t IH]; intros n d H.
  - right. split; [exact H|]. intros [|j]; discriminate.
  - cbn [enumerate_from flat_map snd fst] in H. rewrite fold_left_app in H.
    destruct x as [h0|]; cbn [fold_left fst snd] in H.
    + destruct (IH (S n) _ H) as [(j & -> & Hj & Hlast)|[Hd Hnone]].
      * left. exists (S j). split; [lia|]. split; [exact Hj|].
        intros [|j'] Hlt; [lia|]. apply Hlast. lia.
      * rewrite dict_get_set in Hd. destruct (str_eqb h h0) eqn:E.
        -- apply str_eqb_eq in E. subst h0. injection Hd as <-.
           left. exists 0. split; [lia|]. split; [reflexivity|].
           intros [|j'] Hlt; [lia|]. apply Hnone.
        -- right. split; [exact Hd|]. intros [|j]; [|apply Hnone].
           simpl. intros Heq. injection Heq as ->.
           rewrite str_eqb_refl in E. discriminate E.
    + destruct (IH (S n) _ H) as [(j & -> & Hj & Hlast)|[Hd Hnone]].
      * left. exists (S j). split; [lia|]. split; [exact Hj|].
        intros [|j'] Hlt; [lia|]. apply Hlast. lia.
      * right. split; [exact Hd|]. intros [|j]; [discriminate|apply Hnone].
Qed.

Lemma header_index_defined n hs (d : dict nat) h :
  In (Some h) hs \/ (exists i0, dict_get d h = Some i0) ->
  exists i,
    dict_get (fold_left (fun d kv => dict_set d (fst kv) (snd kv))
                        (flat_map (fun ih => match snd ih with
                                             | Some h => [(h, fst ih)]
                                             | None => []
                                             end)
                                  (enumerate_from n hs)) d) h = Some i.
Proof.
  revert n d. induction hs as [|x t IH]; intros n d H.
  - destruct H as [[]|[i0 H]]. exists i0. exact H.
  - cbn [enumerate_from flat_map snd fst]. rewrite fold_left_app.
    destruct x as [h0|]; cbn [fold_left fst snd]; apply IH.
    + destruct H as [[E|Hin]|[i0 H]].
      * injection E as ->. right. exists n. rewrite dict_get_set, str_eqb_refl.
        reflexivity.
      * left. exact Hin.
      * right. rewrite dict_get_set. destruct (str_eqb h h0); eauto.
    + destruct H as [[E|Hin]|H]; [discriminate E|left; exact Hin|right; exact H].
Qed.

Lemma header_index_last headers h i :
  last_position headers h i -> dict_get (header_index headers) h = Some i.
Proof.
  intros [Hi Hlast].
  destruct (header_index_defined 0 headers [] h
              (or_introl (nth_error_In headers i Hi))) as [i' Hi'].
  unfold header_index, dict_of. rewrite Hi'. f_equal.
  destruct (header_index_fold 0 headers [] h i' Hi')
    as [(j & -> & Hj & Hjlast)|[Hd _]]; [|discriminate Hd].
  simpl. destruct (Nat.lt_trichotomy i j) as [Hlt|[E|Hlt]]; [|exact (eq_sym E)|].
  - exfalso. exact (Hlast j Hlt Hj).
  - exfalso. exact (Hjlast i Hlt Hi).
Qed.

Lemma or_empty_nth_error (r : list str) i : or_empty (nth_error r i) = nth i r [].
Proof.
  revert i. induction r as [|c t IH]; intros [|i]; try reflexivity. apply IH.
Qed.

(** The cell of the column [h] of a raw row is the entry of the row at the
    place of [h]. *)
Lemma cell_at headers h i r :
  h <> [] -> last_position headers h i ->
  or_empty (cell (header_index headers) r (Some h)) = nth i r [].
Proof.
  intros Hne Hpos. unfold cell.
  destruct h as [|c t]; [contradiction|]. cbn [truthy].
  rewrite (header_index_last headers (c :: t) i Hpos). apply or_empty_nth_error.
Qed.

(** The team column has a name that is not the empty text. *)
Lemma team_column_named hs h :
  two_passes false hs team_candidates = Some h -> h <> [].
Proof.
  unfold two_passes. intros H Eh. subst h.
  destruct (find (exact_match team_candidates) hs) eqn:F.
  - injection H as ->. apply find_some in F as [_ F]. vm_compute in F. discriminate F.
  - apply find_some in H as [_ H]. vm_compute in H. discriminate H.
Qed.

Lemma two_passes_in hs candidates h :
  two_passes false hs candidates = Some h -> In h hs.
Proof.
  unfold two_passes. intros H.
  destruct (find (exact_match candidates) hs) eqn:F.
  - injection H as ->. apply find_some in F as [F _]. exact F.
  - apply find_some in H as [H _]. exact H.
Qed.

Lemma not_none_in {A} (l : list (option A)) a : In a (not_none l) -> In (Some a) l.
Proof.
  induction l as [|[x|] t IH]; simpl; [contradiction| |].
  - intros [->|H]; [left; reflexivity|right; exact (IH H)].
  - intros H. right. exact (IH H).
Qed.

(** A name that stands in the header line has a last place there. *)
Lemma last_position_exists headers h :
  In (Some h) headers -> exists i, last_position headers h i.
Proof.
  intros Hin.
  destruct (header_index_defined 0 headers [] h (or_introl Hin)) as [i Hi].
  destruct (header_index_fold 0 headers [] h i Hi)
    as [(j & _ & Hj)|[Hd _]]; [|discriminate Hd].
  exists j. exact Hj.
Qed.

Lemma not_none_keys (first : csv_row) :
  not_none (map (fun kv => Some (fst kv)) first) = map fst first.
Proof.
  induction first as [|kv t IH]; [reflexivity|]. simpl. rewrite IH. reflexivity.
Qed.

(** The field of a row read from CSV. *)
Lemma csv_get_field (r : csv_row) h :
  h <> [] -> NoDup (map fst r) -> field_text r h (or_empty (csv_get r (Some h))).
Proof.
  intros Hne Hnd. unfold csv_get. destruct h as [|c t]; [contradiction|].
  cbn [truthy]. split.
  - intros v Hin. rewrite (dict_get_in r (c :: t) (Some v) Hnd Hin). reflexivity.
  - intros Hno. destruct (dict_get r (c :: t)) as [[v|]|] eqn:E; try reflexivity.
    exfalso. exact (Hno v (dict_get_some_in r _ _ E)).
Qed.

Lemma kept_cons_dropped t texts rows :
  strip t = [] -> kept_in_order texts rows -> kept_in_order (t :: texts) rows.
Proof.
  intros Ht (per_row & Hall & ->). exists ([] :: per_row). split; [|reflexivity].
  constructor; [left; auto|exact Hall].
Qed.

Lemma kept_cons_kept t texts x rows :
  strip t <> [] -> r_team x = Some (strip t) -> kept_in_order texts rows ->
  kept_in_order (t :: texts) (x :: rows).
Proof.
  intros Ht Hx (per_row & Hall & ->). exists ([x] :: per_row).
  split; [|reflexivity]. constructor; [right; eauto|exact Hall].
Qed.

(** What [kept_in_order] says of the teams: they are the stripped texts
    that are not empty, in order, and no row has an empty team. *)
Lemma kept_in_order_teams texts rows :
  kept_in_order texts rows ->
  map r_team rows = map Some (filter nonempty (map strip texts))
  /\ Forall (fun r => exists t, r_team r = Some t /\ t <> []) rows.
Proof.
  intros (per_row & Hall & ->).
  induction Hall as [|t out texts per_row Ht _ [IH1 IH2]]; [split; [reflexivity|constructor]|].
  cbn [concat map filter].
  destruct Ht as [[Ht ->]|(Ht & x & -> & Hx)].
  - rewrite Ht. cbn [nonempty app]. split; assumption.
  - destruct (strip t) as [|c k] eqn:E; [contradiction|].
    cbn [nonempty app map]. rewrite Hx, IH1. split; [reflexivity|].
    constructor; [|exact IH2]. exists (c :: k). split; [exact Hx|discriminate].
Qed.

Lemma kept_all_dropped texts rows :
  Forall (fun t => strip t = []) texts -> kept_in_order texts rows -> rows = [].
Proof.
  intros Hall (per_row & H2 & ->).
  induction H2 as [|t out texts per_row Ht _ IH]; [reflexivity|].
  inversion Hall as [|? ? Hs Hrest]; subst.
  destruct Ht as [[_ ->]|[Hne _]]; [|contradiction].
  simpl. exact (IH Hrest).
Qed.

Lemma table_rows_kept index team_col date_col auc_col mrr_col ndcg5_col ndcg10_col rows_2d :
  exists rows,
    table_rows index team_col date_col auc_col mrr_col ndcg5_col ndcg10_col rows_2d
    = Ok rows
    /\ kept_in_order (map (fun r => or_empty (cell index r team_col)) rows_2d) rows.
Proof.
  induction rows_2d as [|r rest (more & Hmore & Hkept)].
  - exists []. split; [reflexivity|]. exists []. split; [constructor|reflexivity].
  - cbn [table_rows map]. unfold table_row.
    destruct (strip (or_empty (cell index r team_col))) as [|c t] eqn:E.
    + exists more. rewrite Hmore. split; [reflexivity|].
      apply kept_cons_dropped; assumption.
    + destruct (parse_float_never_raises (cell index r auc_col)) as [a ->].
      destruct (parse_float_never_raises (cell index r mrr_col)) as [m ->].
      destruct (parse_float_never_raises (cell index r ndcg5_col)) as [n5 ->].
      destruct (parse_float_never_raises (cell index r ndcg10_col)) as [n10 ->].
      rewrite Hmore. cbn [bind app]. eexists. split; [reflexivity|].
      apply kept_cons_kept; [rewrite E; discriminate|rewrite E; reflexivity|exact Hkept].
Qed.

Lemma csv_metric_never_raises r col : exists v, csv_metric r col = Ok v.
Proof.
  unfold csv_metric. destruct (truthy col); [|eexists; reflexivity].
  apply parse_float_never_raises.
Qed.

Lemma generic_rows_kept team_col date_col auc_col mrr_col ndcg5_col ndcg10_col dict_rows :
  exists rows,
    generic_rows team_col date_col auc_col mrr_col ndcg5_col ndcg10_col dict_rows
    = Ok rows
    /\ kept_in_order (map (fun r => or_empty (csv_get r team_col)) dict_rows) rows.
Proof.
  induction dict_rows as [|r rest (more & Hmore & Hkept)].
  - exists []. split; [reflexivity|]. exists []. split; [constructor|reflexivity].
  - cbn [generic_rows map]. unfold generic_row.
    destruct (strip (or_empty (csv_get r team_col))) as [|c t] eqn:E.
    + exists more. rewrite Hmore. split; [reflexivity|].
      apply kept_cons_dropped; assumption.
    + destruct (csv_metric_never_raises r auc_col) as [a ->].
      destruct (csv_metric_never_raises r mrr_col) as [m ->].
      destruct (csv_metric_never_raises r ndcg5_col) as [n5 ->].
      destruct (csv_metric_never_raises r ndcg10_col) as [n10 ->].
      rewrite Hmore. cbn [bind app]. eexists. split; [reflexivity|].
      apply kept_cons_kept; [rewrite E; discriminate|rewrite E; reflexivity|exact Hkept].
Qed.

(** C7.  Both row normalisers return (they never raise).  The team column
    is the header the two passes of the column resolver give for the team
    names; the team text of a raw row is its entry in that column (the entry
    at the place of the header in a scraped table, the value of the field in
    a row read from CSV), and the empty text when there is no such column or
    entry.  A raw row whose team text is empty once stripped gives no row;
    any other gives one row with the stripped text as its team; the rows
    stand in the order of the raw rows.  So the teams returned are the
    stripped team texts that are not empty, in order, every row returned has
    a team that is not empty, and a row whose team is blank, or made of
    no-break spaces, gives no row. *)
Theorem row_normalisers_drop_empty_teams :
  (forall headers rows_2d,
      exists rows,
        _codabench_parse_table headers rows_2d = Ok rows
        /\ match two_passes false (not_none headers) team_candidates with
           | None => rows = []
           | Some h =>
               exists i,
                 last_position headers h i
                 /\ kept_in_order (map (fun r => nth i r []) rows_2d) rows
           end)
  /\ (forall first rest,
        Forall (fun r : csv_row => NoDup (map fst r)) (first :: rest) ->
        exists rows,
          _parse_generic_leaderboard_rows (first :: rest) = Ok rows
          /\ match two_passes false (map fst first) team_candidates with
             | None => rows = []
             | Some h =>
                 exists texts,
                   Forall2 (fun r t => field_text r h t) (first :: rest) texts
                   /\ kept_in_order texts rows
             end)
  /\ _parse_generic_leaderboard_rows [] = Ok []
  /\ (forall texts rows,
        kept_in_order texts rows ->
        map r_team rows = map Some (filter nonempty (map strip texts))
        /\ Forall (fun r => exists t, r_team r = Some t /\ t <> []) rows)
  /\ _parse_generic_leaderboard_rows
       [[(lit "team", Some (lit "  ")); (lit "auc", Some (lit "0.9"))]] = Ok []
  /\ _codabench_parse_table [Some (lit "team"); Some (lit "auc")]
       [[lit "  "; lit "0.9"]] = Ok []
  /\ (exists a b,
        _codabench_parse_table [Some (lit "AUC"); Some (lit "Team")]
          [[lit "0.5"; lit " alice "]; [lit "0.9"; lit "  "];
           [lit "0.75"; [nbsp; nbsp]]; [lit "0.25"]; [lit ""; lit "bob"]]
        = Ok [a; b]
        /\ r_team a = Some (lit "alice") /\ r_auc a = Some (Finite (1 # 2))
        /\ r_team b = Some (lit "bob") /\ r_auc b = None)
  /\ (exists a b,
        _parse_generic_leaderboard_rows
          [[(lit "User", Some (lit "carol ")); (lit "auc", Some (lit "0.5"))];
           [(lit "User", Some [nbsp]); (lit "auc", Some (lit "0.9"))];
           [(lit "User", None); (lit "auc", Some (lit "0.9"))];
           [(lit "User", Some (lit "dave")); (lit "auc", None)]]
        = Ok [a; b]
        /\ r_team a = Some (lit "carol") /\ r_auc a = Some (Finite (1 # 2))
        /\ r_team b = Some (lit "dave") /\ r_auc b = None).
Proof.
  split; [|split; [|split; [reflexivity|split; [exact kept_in_order_teams|]]]].
  - intros headers rows_2d. unfold _codabench_parse_table.
    destruct (table_rows_kept (header_index headers)
                (_find_column headers team_candidates)
                (_find_column headers date_candidates)
                (_find_column headers auc_candidates)
                (_find_column headers mrr_candidates)
                (_find_column headers ndcg5_candidates)
                (_find_column headers ndcg10_candidates) rows_2d)
      as (rows & Hrows & Hkept).
    rewrite (find_column_two_passes headers team_candidates) in Hkept.
    assert (Hres : exists rows',
               match headers, rows_2d with
               | [], _ | _, [] => Ok []
               | _, _ =>
                   table_rows (header_index headers)
                     (_find_column headers team_candidates)
                     (_find_column headers date_candidates)
                     (_find_column headers auc_candidates)
                     (_find_column headers mrr_candidates)
                     (_find_column headers ndcg5_candidates)
                     (_find_column headers ndcg10_candidates) rows_2d
               end = Ok rows'
               /\ (rows' = rows \/ (rows' = [] /\ (headers = [] \/ rows_2d = [])))).
    { destruct headers as [|h0 hs]; [exists []; auto|].
      destruct rows_2d as [|r0 rest]; [exists []; auto|].
      exists rows. auto. }
    destruct Hres as (rows' & Hres & Hcase). exists rows'. split; [exact Hres|].
    destruct (two_passes false (not_none headers) team_candidates) as [h|] eqn:Eh.
    + pose proof (team_column_named _ _ Eh) as Hne.
      destruct (last_position_exists headers h
                  (not_none_in _ _ (two_passes_in _ _ _ Eh))) as [i Hi].
      exists i. split; [exact Hi|].
      rewrite (map_ext _ (fun r => nth i r [])
                       (fun r => cell_at headers h i r Hne Hi)) in Hkept.
      destruct Hcase as [->|[-> [Hh|Hr]]]; [exact Hkept| |].
      * subst headers. discriminate Eh.
      * subst rows_2d. exists []. split; [constructor|reflexivity].
    + destruct Hcase as [->|[-> _]]; [|reflexivity].
      refine (kept_all_dropped _ _ _ Hkept).
      apply Forall_forall. intros t Ht. apply in_map_iff in Ht as (r & <- & _).
      reflexivity.
  - intros first rest Hnd. unfold _parse_generic_leaderboard_rows.
    destruct (generic_rows_kept
                (_find_column (map (fun kv => Some (fst kv)) first) team_candidates)
                (_find_column (map (fun kv => Some (fst kv)) first) date_candidates)
                (_find_column (map (fun kv => Some (fst kv)) first) auc_candidates)
                (_find_column (map (fun kv => Some (fst kv)) first) mrr_candidates)
                (_find_column (map (fun kv => Some (fst kv)) first) ndcg5_candidates)
                (_find_column (map (fun kv => Some (fst kv)) first) ndcg10_candidates)
                (first :: rest))
      as (rows & Hrows & Hkept).
    exists rows. split; [exact Hrows|].
    rewrite (find_column_two_passes _ team_candidates), not_none_keys in Hkept.
    destruct (two_passes false (map fst first) team_candidates) as [h|] eqn:Eh.
    + pose proof (team_column_named _ _ Eh) as Hne.
      exists (map (fun r => or_empty (csv_get r (Some h))) (first :: rest)).
      split; [|exact Hkept].
      clear Hkept Hrows. induction Hnd as [|r l Hr _ IH]; [constructor|].
      cbn [map]. constructor; [exact (csv_get_field r h Hne Hr)|exact IH].
    + refine (kept_all_dropped _ _ _ Hkept).
      apply Forall_forall. intros t Ht. apply in_map_iff in Ht as (r & <- & _).
      reflexivity.
  - split; [vm_compute; reflexivity|]. split; [vm_compute; reflexivity|].
    split; eexists; eexists; vm_compute; repeat split; reflexivity.
Qed.

Lemma row_normalisers_drop_empty_teams_witness :
  exists rows,
    _parse_generic_leaderboard_rows
      ([(lit "team", Some (lit " x ")); (lit "auc", Some (lit "0.5"))]
         :: [[(lit "team", Some (lit "  ")); (lit "auc", Some (lit "0.9"))]])
    = Ok rows
    /\ match two_passes false
               (map fst [(lit "team", Some (lit " x ")); (lit "auc", Some (lit "0.5"))])
               team_candidates with
       | None => rows = []
       | Some h =>
           exists texts,
             Forall2 (fun r t => field_text r h t)
                     ([(lit "team", Some (lit " x ")); (lit "auc", Some (lit "0.5"))]
                        :: [[(lit "team", Some (lit "  ")); (lit "auc", Some (lit "0.9"))]])
                     texts
             /\ kept_in_order texts rows
       end.
Proof.
  apply (proj1 (proj2 row_normalisers_drop_empty_teams)).
  repeat constructor; simpl; intuition discriminate.
Defined.

(** ** Value normaliser: dates *)

Lemma lstrip_keeps_nonspace l c k :
  is_space c = false -> exists l', lstrip (l ++ c :: k) = l' ++ c :: k.
Proof.
  intros Hc. induction l as [|a l [l' IH]]; simpl.
  - rewrite Hc. exists []. reflexivity.
  - destruct (is_space a); [exists l'; exact IH|].
    exists (a :: l). reflexivity.
Qed.

(** Stripping keeps a prefix that starts and ends with characters that are
    not white space. *)
Lemma strip_keeps_prefix a p0 c rest :
  is_space a = false -> is_space c = false ->
  exists rest', strip ((a :: p0) ++ c :: rest) = (a :: p0) ++ c :: rest'.
Proof.
  intros Ha Hc. unfold strip. cbn [app lstrip]. rewrite Ha. unfold rstrip.
  change (a :: p0 ++ c :: rest) with ((a :: p0) ++ [c] ++ rest).
  rewrite app_assoc, rev_app_distr, rev_app_distr. cbn [rev app].
  destruct (lstrip_keeps_nonspace (rev rest) c (rev p0 ++ [a]) Hc) as [l' ->].
  exists (rev l'). rewrite rev_app_distr. cbn [rev].
  rewrite rev_app_distr, rev_involutive. cbn [rev app].
  rewrite <- !app_assoc. reflexivity.
Qed.

Lemma flat_map_nil {A B} (f : A -> list B) l :
  (forall x, In x l -> f x = []) -> flat_map f l = [].
Proof.
  induction l as [|a l IH]; intros H; [reflexivity|].
  simpl. rewrite (H a (or_introl eq_refl)). apply IH.
  intros x Hx. apply H. right. exact Hx.
Qed.

(** No full month name starts a text that starts with [Sept.]. *)
Lemma no_month_name_at_sept rest :
  match_directive DB ("S"%char :: "e"%char :: "p"%char :: "t"%char :: "."%char :: rest)
  = [].
Proof.
  unfold match_directive. apply flat_map_nil. intros [name n] Hin.
  assert (E : str_eqb (lower (firstn (length name)
                ("S"%char :: "e"%char :: "p"%char :: "t"%char :: "."%char :: rest)))
                      (lower name) = false).
  { destruct (str_eqb _ (lower name)) eqn:E; [|reflexivity].
    apply str_eqb_eq in E. exfalso. vm_compute in Hin.
    repeat (destruct Hin as [Hin|Hin];
            [injection Hin as <- <-; cbn in E; congruence|]).
    exact Hin. }
  rewrite E, andb_false_r. reflexivity.
Qed.

(** No format of the list reads a text that starts with [Sept.]: the year
    formats want a digit, [%b] reads [Sep] and then wants white space or a
    dot where the [t] is, and [%B] wants a full month name. *)
Lemma try_formats_sept rest :
  try_formats ("S"%char :: "e"%char :: "p"%char :: "t"%char :: "."%char :: rest)
              date_formats = None.
Proof.
  unfold date_formats. cbn [try_formats].
  replace (strptime _ (lit "%Y-%m-%d %H:%M:%S")) with (@Raise datetime ValueError)
    by reflexivity.
  replace (strptime _ (lit "%Y-%m-%d")) with (@Raise datetime ValueError)
    by reflexivity.
  replace (strptime _ (lit "%b %d, %Y")) with (@Raise datetime ValueError)
    by reflexivity.
  replace (strptime _ (lit "%b. %d, %Y")) with (@Raise datetime ValueError)
    by reflexivity.
  unfold strptime.
  change (compile_format false (lit "%B %d, %Y"))
    with [FDir DB; FWs; FDir Dd; FLit ","%char; FWs; FDir DY].
  cbn [match_items match_item]. rewrite no_month_name_at_sept. reflexivity.
Qed.

Lemma parse_date_any_sept rest :
  _parse_date_any (Some (lit "Sept." ++ rest)) = None.
Proof.
  destruct (strip_keeps_prefix "S"%char (lit "ept") "."%char rest eq_refl eq_refl)
    as [rest' E].
  unfold _parse_date_any.
  change (lit "Sept." ++ rest) with (("S"%char :: lit "ept") ++ "."%char :: rest).
  rewrite E. cbn [app lit String.list_ascii_of_string].
  destruct (str_eqb _ []) eqn:Es; [apply str_eqb_eq in Es; discriminate Es|].
  replace (fromisoformat _) with (@Raise datetime ValueError) by reflexivity.
  apply try_formats_sept.
Qed.

Lemma map_eq_pointwise {A B} (f g : A -> B) l :
  map f l = map g l -> forall x, In x l -> f x = g x.
Proof.
  induction l as [|a l IH]; intros H x Hx; [contradiction|].
  simpl in H. injection H as Ha Hl. destruct Hx as [<-|Hx]; [exact Ha|].
  exact (IH Hl x Hx).
Qed.

(** C6.  [_parse_date_any] returns [None] for [Sept. 05, 2021], the display
    form [_format_date_display] gives September 5, 2021, so that there is no
    parsed date to format.  It returns [None] for every text that starts
    with [Sept.], and every date in September is displayed with [Sept.], so
    no date in September is read back from its display form; of the days of
    2020 and of 2021, each one outside September is read back from its
    display form as the date it is, through the format [%b. %d, %Y].
    [Sep. 05, 2021] is read, and displayed as [Sept. 05, 2021].  For a cell
    [Sept. 05, 2021] the table normaliser gives a row with no date, and the
    generic normaliser one with the text as [date_raw] and [date_display]. *)
Theorem sept_display_form :
  _parse_date_any (Some (lit "Sept. 05, 2021")) = None
  /\ _format_date_display (_parse_date_any (Some (lit "Sept. 05, 2021"))) = None
  /\ _format_date_display (Some (mk_datetime 2021 9 5 0 0 0 0 None))
     = Some (lit "Sept. 05, 2021")
  /\ (forall rest, _parse_date_any (Some (lit "Sept." ++ rest)) = None)
  /\ (forall y d hh mi ss us tz,
        _format_date_display (Some (mk_datetime y 9 d hh mi ss us tz))
        = Some (lit "Sept. " ++ zero_pad 2 d ++ lit ", " ++ zero_pad 4 y)
        /\ _parse_date_any
             (_format_date_display (Some (mk_datetime y 9 d hh mi ss us tz)))
           = None)
  /\ (forall y m d,
        (y = 2020%N \/ y = 2021%N) -> In (m, d) (days_of_year y) ->
        read_back_display y m d
        = if (m =? 9)%N then None else Some (mk_datetime y m d 0 0 0 0 None))
  /\ strptime (lit "Oct. 05, 2021") (lit "%b. %d, %Y")
     = Ok (mk_datetime 2021 10 5 0 0 0 0 None)
  /\ _parse_date_any (Some (lit "Sep. 05, 2021"))
     = Some (mk_datetime 2021 9 5 0 0 0 0 None)
  /\ _codabench_parse_table [Some (lit "team"); Some (lit "date")]
       [[lit "x"; lit "Sept. 05, 2021"]]
     = Ok [mk_row (Some (lit "x")) None None None None None None None
                  None None None None]
  /\ _parse_generic_leaderboard_rows
       [[(lit "team", Some (lit "x")); (lit "date", Some (lit "Sept. 05, 2021"))]]
     = Ok [mk_row (Some (lit "x")) None None None None
                  None (Some (lit "Sept. 05, 2021")) (Some (lit "Sept. 05, 2021"))
                  None None None None].
Proof.
  split; [vm_compute; reflexivity|]. split; [vm_compute; reflexivity|].
  split; [vm_compute; reflexivity|].
  split; [exact parse_date_any_sept|]. split.
  { intros y d hh mi ss us tz. split; [reflexivity|].
    exact (parse_date_any_sept (lit " " ++ zero_pad 2 d ++ lit ", " ++ zero_pad 4 y)). }
  split.
  { intros y m d Hy Hin.
    assert (H : forall y0, y0 = 2020%N \/ y0 = 2021%N ->
                map (fun md => read_back_display y0 (fst md) (snd md)) (days_of_year y0)
                = map (fun md => if (fst md =? 9)%N then None
                                 else Some (mk_datetime y0 (fst md) (snd md) 0 0 0 0 None))
                      (days_of_year y0)).
    { intros y0 [->| ->]; vm_compute; reflexivity. }
    exact (map_eq_pointwise _ _ _ (H y Hy) (m, d) Hin). }
  vm_compute. repeat split; reflexivity.
Qed.

Lemma sept_display_form_witness :
  read_back_display 2021 10 5 = Some (mk_datetime 2021 10 5 0 0 0 0 None).
Proof.
  refine (proj1 (proj2 (proj2 (proj2 (proj2 (proj2 sept_display_form)))))
                2021%N 10%N 5%N (or_intror eq_refl) _).
  vm_compute. tauto.
Defined.

(** ** Combiner *)

Section CompareFacts.
Context {A : Type} (cmp : A -> A -> comparison) `{TotalCompare A cmp}.

Lemma cmp_eq_sym x y : cmp x y = Eq -> cmp y x = Eq.
Proof. intros E. rewrite cmp_antisym, E. reflexivity. Qed.

Lemma cmp_eq_compat_r x y z : cmp x y = Eq -> cmp z x = cmp z y.
Proof.
  intros E. rewrite (cmp_antisym x z), (cmp_antisym y z).
  rewrite (cmp_eq_compat x y z E). reflexivity.
Qed.

Lemma cmp_gt_lt x y : cmp x y = Gt -> cmp y x = Lt.
Proof. intros E. rewrite cmp_antisym, E. reflexivity. Qed.

Lemma cmp_lt_gt x y : cmp x y = Lt -> cmp y x = Gt.
Proof. intros E. rewrite cmp_antisym, E. reflexivity. Qed.

(** Below [z], and [y] not below [z]: below [y]. *)
Lemma cmp_lt_not_lt x y z : cmp x z = Lt -> cmp y z <> Lt -> cmp x y = Lt.
Proof.
  intros Hxz Hyz. destruct (cmp y z) eqn:E; [|contradiction|].
  - rewrite (cmp_eq_compat_r y z x E). exact Hxz.
  - apply cmp_gt_lt in E. exact (cmp_lt_trans x z y Hxz E).
Qed.
End CompareFacts.

#[export] Instance lex_total {A B} (ca : A -> A -> comparison)
  (cb : B -> B -> comparison) `{TotalCompare A ca} `{TotalCompare B cb}
  : TotalCompare (lex_compare ca cb).
Proof.
  split; unfold lex_compare, then_compare.
  - intros [a b]. simpl.
    rewrite (cmp_refl (cmp := ca)), (cmp_refl (cmp := cb)). reflexivity.
  - intros [a b] [a' b']. simpl.
    rewrite (cmp_antisym (cmp := ca) a a'), (cmp_antisym (cmp := cb) b b').
    destruct (ca a a'); reflexivity.
  - intros [a b] [a' b'] [a'' b'']. simpl.
    destruct (ca a a') eqn:E1; try discriminate.
    + rewrite (cmp_eq_compat (cmp := ca) a a' a'' E1).
      destruct (ca a' a''); try discriminate; [|reflexivity].
      apply (cmp_lt_trans (cmp := cb)).
    + intros _. destruct (ca a' a'') eqn:E2; try discriminate.
      * intros _. rewrite <- (cmp_eq_compat_r ca a' a'' a E2), E1. reflexivity.
      * intros _. rewrite (cmp_lt_trans (cmp := ca) a a' a'' E1 E2). reflexivity.
  - intros [a b] [a' b'] [a'' b'']. simpl.
    destruct (ca a a') eqn:E1; try discriminate.
    intros E2.
    rewrite (cmp_eq_compat (cmp := ca) a a' a'' E1),
      (cmp_eq_compat (cmp := cb) b b' b'' E2).
    reflexivity.
Qed.

#[export] Instance Qcompare_total : TotalCompare Qcompare.
Proof.
  split.
  - intros x. apply Qeq_alt. reflexivity.
  - intros x y. symmetry. apply Qcompare_antisym.
  - intros x y z Hxy Hyz. apply Qlt_alt. apply Qlt_alt in Hxy, Hyz.
    exact (Qlt_trans x y z Hxy Hyz).
  - intros x y z E. apply Qeq_alt in E. rewrite E. reflexivity.
Qed.

#[export] Instance float_compare_total : TotalCompare float_compare.
Proof.
  split.
  - intros [x| | |]; try reflexivity; apply (cmp_refl (cmp := Qcompare)).
  - intros [x| | |] [y| | |]; try reflexivity;
      apply (cmp_antisym (cmp := Qcompare)).
  - intros [x| | |] [y| | |] [z| | |]; simpl; try discriminate; try reflexivity;
      apply (cmp_lt_trans (cmp := Qcompare)).
  - intros [x| | |] [y| | |] [z| | |]; simpl; try discriminate; try reflexivity;
      apply (cmp_eq_compat (cmp := Qcompare)).
Qed.

Lemma str_compare_eq a b : str_compare a b = Eq -> a = b.
Proof.
  revert b. induction a as [|x a IH]; intros [|y b]; simpl; try discriminate.
  - reflexivity.
  - destruct (N.compare (N_of_ascii x) (N_of_ascii y)) eqn:E; try discriminate.
    intros H. apply N.compare_eq in E.
    rewrite <- (ascii_N_embedding x), <- (ascii_N_embedding y), E, (IH b H).
    reflexivity.
Qed.

#[export] Instance str_compare_total : TotalCompare str_compare.
Proof.
  split.
  - intros x. induction x as [|c x IH]; [reflexivity|].
    simpl. rewrite N.compare_refl. exact IH.
  - intros x. induction x as [|c x IH]; intros [|d y]; try reflexivity.
    simpl. rewrite (N.compare_antisym (N_of_ascii c) (N_of_ascii d)).
    destruct (N.compare (N_of_ascii c) (N_of_ascii d)); simpl; auto.
  - intros x. induction x as [|c x IH]; intros [|d y] [|e z]; simpl;
      try discriminate; try reflexivity.
    destruct (N.compare (N_of_ascii c) (N_of_ascii d)) eqn:E1; try discriminate.
    + apply N.compare_eq in E1. rewrite E1.
      destruct (N.compare (N_of_ascii d) (N_of_ascii e)); try discriminate;
        [apply IH|reflexivity].
    + intros _. destruct (N.compare (N_of_ascii d) (N_of_ascii e)) eqn:E2;
        try discriminate; intros _.
      * apply N.compare_eq in E2. rewrite <- E2, E1. reflexivity.
      * apply N.compare_lt_iff in E1. apply N.compare_lt_iff in E2.
        assert (E3 : N.compare (N_of_ascii c) (N_of_ascii e) = Lt)
          by (apply N.compare_lt_iff; exact (N.lt_trans _ _ _ E1 E2)).
        rewrite E3. reflexivity.
  - intros x y z E. apply str_compare_eq in E. subst y. reflexivity.
Qed.

Lemma key_compare_lex k1 k2 :
  key_compare k1 k2
  = lex_compare
      (lex_compare (lex_compare (lex_compare float_compare float_compare)
                                float_compare) float_compare)
      str_compare k1 k2.
Proof.
  destruct k1 as [[[[a1 m1] f1] t1] n1], k2 as [[[[a2 m2] f2] t2] n2].
  unfold key_compare, lex_compare, then_compare. simpl.
  destruct (float_compare a1 a2), (float_compare m1 m2), (float_compare f1 f2),
    (float_compare t1 t2); reflexivity.
Qed.

#[export] Instance key_compare_total : TotalCompare key_compare.
Proof.
  pose proof (lex_total
                (lex_compare (lex_compare (lex_compare float_compare float_compare)
                                          float_compare) float_compare)
                str_compare) as T.
  split; intros; rewrite !key_compare_lex in *.
  - apply cmp_refl.
  - apply cmp_antisym.
  - eapply cmp_lt_trans; eassumption.
  - apply cmp_eq_compat. assumption.
Qed.

Section SortFacts.
Context {A K : Type} (key : A -> K) (cmp : K -> K -> comparison)
        `{TotalCompare K cmp}.

Let ge (a b : A) : Prop := cmp (key a) (key b) <> Lt.
Let keq (a b : A) : Prop := cmp (key a) (key b) = Eq.
Let ins := insert_desc key (ltb_of cmp).
Let srt := sort_reverse key (ltb_of cmp).

Lemma ltb_of_true k1 k2 : ltb_of cmp k1 k2 = true <-> cmp k1 k2 = Lt.
Proof. unfold ltb_of. destruct (cmp k1 k2); split; congruence. Qed.

Lemma ltb_of_false k1 k2 : ltb_of cmp k1 k2 = false <-> cmp k1 k2 <> Lt.
Proof. unfold ltb_of. destruct (cmp k1 k2); split; congruence. Qed.

Lemma ge_trans a b c : ge a b -> ge b c -> ge a c.
Proof.
  unfold ge. intros Hab Hbc Hac. apply Hab.
  exact (cmp_lt_not_lt cmp _ _ _ Hac Hbc).
Qed.

Lemma keq_refl a : keq a a.
Proof. apply (cmp_refl (cmp := cmp)). Qed.

Lemma keq_trans a b c : keq a b -> keq b c -> keq a c.
Proof. unfold keq. intros Hab Hbc. rewrite (cmp_eq_compat _ _ _ Hab). exact Hbc. Qed.

Lemma Forall2_keq_refl l : Forall2 keq l l.
Proof. induction l; constructor; [apply keq_refl|assumption]. Qed.

Lemma Forall2_keq_trans l1 l2 l3 :
  Forall2 keq l1 l2 -> Forall2 keq l2 l3 -> Forall2 keq l1 l3.
Proof.
  intros H12. revert l3. induction H12 as [|a b l1 l2 Hab _ IH]; intros l3 H23.
  - inversion H23. constructor.
  - inversion H23 as [|b' c l2' l3' Hbc Hrest]; subst.
    constructor; [exact (keq_trans _ _ _ Hab Hbc)|exact (IH _ Hrest)].
Qed.

Lemma insert_desc_perm x l : Permutation (ins x l) (x :: l).
Proof.
  induction l as [|y t IH]; [apply Permutation_refl|].
  unfold ins in *. simpl. destruct (ltb_of cmp (key x) (key y)).
  - apply Permutation_trans with (y :: x :: t); [|apply perm_swap].
    apply perm_skip. exact IH.
  - apply Permutation_refl.
Qed.

Lemma sort_reverse_perm l : Permutation (srt l) l.
Proof.
  induction l as [|x t IH]; [constructor|].
  unfold srt in *. simpl.
  apply Permutation_trans with (x :: sort_reverse key (ltb_of cmp) t).
  - apply insert_desc_perm.
  - apply perm_skip. exact IH.
Qed.

Lemma insert_desc_sorted x l : StronglySorted ge l -> StronglySorted ge (ins x l).
Proof.
  induction 1 as [|y t Hs IH Hy]; unfold ins in *; simpl.
  - constructor; constructor.
  - destruct (ltb_of cmp (key x) (key y)) eqn:E.
    + constructor; [exact IH|].
      apply ltb_of_true in E.
      apply (Permutation_Forall (Permutation_sym (insert_desc_perm x t))).
      constructor; [|exact Hy].
      unfold ge. rewrite (cmp_antisym (cmp := cmp)), E. discriminate.
    + apply ltb_of_false in E. constructor; [constructor; assumption|].
      constructor; [exact E|].
      apply Forall_forall. intros z Hz. rewrite Forall_forall in Hy.
      exact (ge_trans _ _ _ E (Hy z Hz)).
Qed.

Lemma sort_reverse_sorted l : StronglySorted ge (srt l).
Proof.
  induction l as [|x t IH]; [constructor|].
  unfold srt in *. simpl. apply insert_desc_sorted. exact IH.
Qed.

Lemma insert_desc_keq x l l' : Forall2 keq l l' -> Forall2 keq (ins x l) (ins x l').
Proof.
  induction 1 as [|y y' t t' Hy Ht IH]; unfold ins in *; simpl.
  - constructor; [apply keq_refl|constructor].
  - assert (E : ltb_of cmp (key x) (key y) = ltb_of cmp (key x) (key y')).
    { unfold ltb_of. rewrite (cmp_eq_compat_r cmp _ _ (key x) Hy). reflexivity. }
    rewrite E. destruct (ltb_of cmp (key x) (key y')).
    + constructor; assumption.
    + constructor; [apply keq_refl|]. constructor; assumption.
Qed.

Lemma insert_desc_swap x y l : Forall2 keq (ins y (ins x l)) (ins x (ins y l)).
Proof.
  induction l as [|z t IH]; unfold ins in *; simpl.
  - destruct (ltb_of cmp (key y) (key x)) eqn:Eyx;
      destruct (ltb_of cmp (key x) (key y)) eqn:Exy.
    + apply ltb_of_true in Eyx, Exy.
      rewrite (cmp_antisym (cmp := cmp)), Eyx in Exy. discriminate Exy.
    + apply Forall2_keq_refl.
    + apply Forall2_keq_refl.
    + apply ltb_of_false in Eyx, Exy.
      assert (E : keq y x).
      { unfold keq. destruct (cmp (key y) (key x)) eqn:E; [reflexivity|contradiction|].
        apply (cmp_gt_lt cmp) in E. contradiction. }
      constructor; [exact E|].
      constructor; [exact (cmp_eq_sym cmp _ _ E)|constructor].
  - destruct (ltb_of cmp (key x) (key z)) eqn:Exz;
      destruct (ltb_of cmp (key y) (key z)) eqn:Eyz; simpl; rewrite ?Exz, ?Eyz.
    + constructor; [apply keq_refl|exact IH].
    + pose proof (cmp_lt_not_lt cmp _ _ _ (proj1 (ltb_of_true _ _) Exz)
                                (proj1 (ltb_of_false _ _) Eyz)) as Exy.
      apply ltb_of_true in Exy. rewrite ?Exy. simpl. rewrite ?Exz, ?Eyz.
      apply Forall2_keq_refl.
    + pose proof (cmp_lt_not_lt cmp _ _ _ (proj1 (ltb_of_true _ _) Eyz)
                                (proj1 (ltb_of_false _ _) Exz)) as Eyx.
      apply ltb_of_true in Eyx. rewrite ?Eyx. simpl. rewrite ?Exz, ?Eyz.
      apply Forall2_keq_refl.
    + destruct (ltb_of cmp (key y) (key x)) eqn:Eyx;
        destruct (ltb_of cmp (key x) (key y)) eqn:Exy; simpl; rewrite ?Exz, ?Eyz.
      * apply ltb_of_true in Eyx, Exy.
        rewrite (cmp_antisym (cmp := cmp)), Eyx in Exy. discriminate Exy.
      * apply Forall2_keq_refl.
      * apply Forall2_keq_refl.
      * apply ltb_of_false in Eyx, Exy.
        assert (E : keq y x).
        { unfold keq. destruct (cmp (key y) (key x)) eqn:E; [reflexivity|contradiction|].
          apply (cmp_gt_lt cmp) in E. contradiction. }
        constructor; [exact E|].
        constructor; [exact (cmp_eq_sym cmp _ _ E)|apply Forall2_keq_refl].
Qed.

(** Sorting a rearrangement of a list gives, place by place, elements with
    the same key. *)
Lemma sort_reverse_perm_keys l l' :
  Permutation l l' -> Forall2 keq (srt l) (srt l').
Proof.
  induction 1 as [|x l l' _ IH|x y l|l1 l2 l3 _ IH1 _ IH2]; unfold srt in *; simpl.
  - constructor.
  - apply insert_desc_keq. exact IH.
  - apply insert_desc_swap.
  - exact (Forall2_keq_trans _ _ _ IH1 IH2).
Qed.

(** Two sorted arrangements of the same elements are the same list when
    elements with the same key are the same element. *)
Lemma sorted_perm_unique l1 l2 :
  StronglySorted ge l1 -> StronglySorted ge l2 -> Permutation l1 l2 ->
  (forall a b, In a l1 -> In b l1 -> keq a b -> a = b) ->
  l1 = l2.
Proof.
  intros H1. revert l2. induction H1 as [|a t1 Hs1 IH Ha]; intros l2 H2 Hp Hinj.
  - apply Permutation_nil in Hp. subst. reflexivity.
  - destruct l2 as [|b t2].
    { apply Permutation_sym, Permutation_nil in Hp. discriminate Hp. }
    inversion H2 as [|b' t2' Hs2 Hb]; subst.
    assert (Hab : a = b).
    { assert (Hin_a : In a (b :: t2))
        by (apply (Permutation_in _ Hp); left; reflexivity).
      assert (Hin_b : In b (a :: t1))
        by (apply (Permutation_in _ (Permutation_sym Hp)); left; reflexivity).
      destruct Hin_a as [E|Hin_a]; [congruence|].
      destruct Hin_b as [E|Hin_b]; [congruence|].
      rewrite Forall_forall in Ha, Hb.
      pose proof (Ha b Hin_b) as Hge1. pose proof (Hb a Hin_a) as Hge2.
      apply (Hinj a b); [left; reflexivity|right; exact Hin_b|].
      unfold keq, ge in *.
      destruct (cmp (key a) (key b)) eqn:E; [reflexivity|contradiction|].
      apply (cmp_gt_lt cmp) in E. contradiction. }
    subst b. f_equal. apply IH; [exact Hs2|exact (Permutation_cons_inv Hp)|].
    intros x y Hx Hy. apply Hinj; right; assumption.
Qed.

Lemma sort_reverse_perm_eq l l' :
  Permutation l l' ->
  (forall a b, In a l -> In b l -> keq a b -> a = b) ->
  srt l = srt l'.
Proof.
  intros Hp Hinj. apply sorted_perm_unique.
  - apply sort_reverse_sorted.
  - apply sort_reverse_sorted.
  - apply Permutation_trans with l; [apply sort_reverse_perm|].
    apply Permutation_trans with l'; [exact Hp|].
    apply Permutation_sym, sort_reverse_perm.
  - intros a b Ha Hb. apply Hinj; apply (Permutation_in _ (sort_reverse_perm l));
      assumption.
Qed.
(** The sort is stable: the elements of one key keep their order. *)
Lemma insert_desc_stable k x l :
  filter (fun a => match cmp (key a) k with Eq => true | _ => false end) (ins x l)
  = filter (fun a => match cmp (key a) k with Eq => true | _ => false end) (x :: l).
Proof.
  induction l as [|y t IH]; [reflexivity|].
  unfold ins in *. cbn [insert_desc].
  destruct (ltb_of cmp (key x) (key y)) eqn:E; [|reflexivity].
  apply ltb_of_true in E. cbn [filter] in *. rewrite IH.
  destruct (cmp (key x) k) eqn:Ex; try reflexivity.
  destruct (cmp (key y) k) eqn:Ey; try reflexivity.
  exfalso. apply (cmp_eq_sym cmp) in Ey.
  rewrite (cmp_eq_compat _ _ (key y) Ex), Ey in E. discriminate E.
Qed.

Lemma sort_reverse_stable k l :
  filter (fun a => match cmp (key a) k with Eq => true | _ => false end) (srt l)
  = filter (fun a => match cmp (key a) k with Eq => true | _ => false end) l.
Proof.
  induction l as [|x t IH]; [reflexivity|].
  unfold srt in *. cbn [sort_reverse fold_right].
  change (fold_right (insert_desc key (ltb_of cmp)) [] t)
    with (sort_reverse key (ltb_of cmp) t).
  rewrite insert_desc_stable. cbn [filter]. rewrite IH. reflexivity.
Qed.
(** There is one stable sorted arrangement: two lists in descending order
    that list the elements of every key in the same order are the same. *)
Lemma stable_sorted_unique l1 l2 :
  StronglySorted ge l1 -> StronglySorted ge l2 ->
  (forall k,
      filter (fun a => match cmp (key a) k with Eq => true | _ => false end) l1
      = filter (fun a => match cmp (key a) k with Eq => true | _ => false end) l2) ->
  l1 = l2.
Proof.
  intros H1. revert l2. induction H1 as [|a t1 Hs1 IH Ha]; intros l2 H2 Hf.
  - destruct l2 as [|b t2]; [reflexivity|].
    specialize (Hf (key b)). cbn [filter] in Hf.
    rewrite (cmp_refl (cmp := cmp)) in Hf. discriminate Hf.
  - destruct l2 as [|b t2].
    { specialize (Hf (key a)). cbn [filter] in Hf.
      rewrite (cmp_refl (cmp := cmp)) in Hf. discriminate Hf. }
    inversion H2 as [|b' t2' Hs2 Hb]; subst.
    assert (Hab : a = b).
    { destruct (cmp (key b) (key a)) eqn:E.
      - pose proof (Hf (key a)) as Hk. cbn [filter] in Hk.
        rewrite (cmp_refl (cmp := cmp)), E in Hk. congruence.
      - (* [a] is among the elements of its key in [t2], all at most [b] *)
        exfalso. pose proof (Hf (key a)) as Hk. cbn [filter] in Hk.
        rewrite (cmp_refl (cmp := cmp)), E in Hk.
        assert (Hin : In a (a :: filter (fun x => match cmp (key x) (key a) with
                                                  | Eq => true
                                                  | _ => false
                                                  end) t1))
          by (left; reflexivity).
        rewrite Hk in Hin. apply filter_In in Hin as [Hin _].
        rewrite Forall_forall in Hb. exact (Hb a Hin E).
      - (* [b] is among the elements of its key in [t1], all at most [a] *)
        exfalso. pose proof (Hf (key b)) as Hk. cbn [filter] in Hk.
        rewrite (cmp_refl (cmp := cmp)) in Hk.
        rewrite (cmp_antisym (cmp := cmp)), E in Hk. cbn [CompOpp] in Hk.
        assert (Hin : In b (b :: filter (fun x => match cmp (key x) (key b) with
                                                  | Eq => true
                                                  | _ => false
                                                  end) t2))
          by (left; reflexivity).
        rewrite <- Hk in Hin. apply filter_In in Hin as [Hin _].
        rewrite Forall_forall in Ha. apply (Ha b Hin).
        rewrite (cmp_antisym (cmp := cmp)), E. reflexivity. }
    subst b. f_equal. apply IH; [exact Hs2|].
    intros k. specialize (Hf k). cbn [filter] in Hf.
    destruct (cmp (key a) k); congruence.
Qed.

(** So [sort_reverse] gives what any stable sort into descending order gives. *)
Lemma sort_reverse_is_the_stable_sort l l' :
  StronglySorted ge l' ->
  (forall k,
      filter (fun a => match cmp (key a) k with Eq => true | _ => false end) l'
      = filter (fun a => match cmp (key a) k with Eq => true | _ => false end) l) ->
  l' = srt l.
Proof.
  intros Hs Hf. apply stable_sorted_unique; [exact Hs|apply sort_reverse_sorted|].
  intros k. rewrite sort_reverse_stable. apply Hf.
Qed.
End SortFacts.

Lemma float_compare_gt a b :
  float_compare (val a) (val b) = Gt <-> metric_lt b a.
Proof.
  destruct a as [[x| | |]|], b as [[y| | |]|]; unfold metric_lt; simpl;
    try (split; [discriminate|contradiction]);
    try (split; auto; fail);
    symmetry; apply Qgt_alt.
Qed.

Lemma float_compare_eq a b :
  float_compare (val a) (val b) = Eq <-> metric_eq a b.
Proof.
  destruct a as [[x| | |]|], b as [[y| | |]|]; unfold metric_eq; simpl;
    try (split; [discriminate|contradiction]);
    try (split; auto; fail);
    symmetry; apply Qeq_alt.
Qed.

(** The comparison of sort keys is the descending order of the
    specification. *)
Lemma key_ge_iff a b : key_ge a b <-> ranks_before a b \/ same_key a b.
Proof.
  unfold key_ge, same_key, ranks_before, str_lt, _metric_sort_key, key_compare,
    then_compare.
  rewrite <- !float_compare_gt, <- !float_compare_eq.
  rewrite (cmp_antisym (cmp := str_compare) (or_empty (r_team a)) (or_empty (r_team b))).
  destruct (float_compare (val (r_auc a)) (val (r_auc b))),
    (float_compare (val (r_mrr a)) (val (r_mrr b))),
    (float_compare (val (r_ndcg5 a)) (val (r_ndcg5 b))),
    (float_compare (val (r_ndcg10 a)) (val (r_ndcg10 b))),
    (str_compare (or_empty (r_team a)) (or_empty (r_team b)));
    simpl; intuition congruence.
Qed.

Lemma same_key_iff a b :
  same_key a b
  <-> metric_eq (r_auc a) (r_auc b) /\ metric_eq (r_mrr a) (r_mrr b)
      /\ metric_eq (r_ndcg5 a) (r_ndcg5 b) /\ metric_eq (r_ndcg10 a) (r_ndcg10 b)
      /\ or_empty (r_team a) = or_empty (r_team b).
Proof.
  unfold same_key, _metric_sort_key, key_compare, then_compare.
  rewrite <- !float_compare_eq.
  split.
  - destruct (float_compare (val (r_auc a)) (val (r_auc b))),
      (float_compare (val (r_mrr a)) (val (r_mrr b))),
      (float_compare (val (r_ndcg5 a)) (val (r_ndcg5 b))),
      (float_compare (val (r_ndcg10 a)) (val (r_ndcg10 b))); try discriminate.
    intros E. apply str_compare_eq in E. auto.
  - intros (-> & -> & -> & -> & ->). apply (cmp_refl (cmp := str_compare)).
Qed.

Lemma enumerate_from_snd {A} i (l : list A) : map snd (enumerate_from i l) = l.
Proof.
  revert i. induction l as [|x t IH]; intros i; [reflexivity|].
  simpl. rewrite IH. reflexivity.
Qed.

Lemma enumerate_from_fst {A} i (l : list A) :
  map fst (enumerate_from i l) = seq i (length l).
Proof.
  revert i. induction l as [|x t IH]; intros i; [reflexivity|].
  simpl. rewrite IH. reflexivity.
Qed.

Lemma assign_ranks_rank rows :
  map r_rank (assign_ranks rows) = map Some (seq 1 (length rows)).
Proof.
  unfold assign_ranks. rewrite map_map.
  rewrite <- (enumerate_from_fst 1 rows), map_map. reflexivity.
Qed.

Lemma assign_ranks_unranked rows : map unranked (assign_ranks rows) = map unranked rows.
Proof.
  unfold assign_ranks. rewrite map_map.
  rewrite <- (enumerate_from_snd 1 rows) at 2. rewrite map_map. reflexivity.
Qed.

Lemma assign_ranks_keys rows :
  map _metric_sort_key (assign_ranks rows) = map _metric_sort_key rows.
Proof.
  unfold assign_ranks. rewrite map_map.
  rewrite <- (enumerate_from_snd 1 rows) at 2. rewrite map_map. reflexivity.
Qed.

Lemma StronglySorted_map {A B} (f : A -> B) (R : B -> B -> Prop) l :
  StronglySorted (fun a b => R (f a) (f b)) l <-> StronglySorted R (map f l).
Proof.
  induction l as [|x t IH]; simpl.
  - split; constructor.
  - split; intros H; inversion H as [|y t' Hs Hx]; subst; constructor.
    + apply IH. exact Hs.
    + apply Forall_map. exact Hx.
    + apply IH. exact Hs.
    + apply Forall_map. exact Hx.
Qed.

Lemma Forall2_map_both {A B} (f : A -> B) (R : B -> B -> Prop) l l' :
  Forall2 (fun a b => R (f a) (f b)) l l' <-> Forall2 R (map f l) (map f l').
Proof.
  split.
  - induction 1; simpl; constructor; assumption.
  - revert l'. induction l as [|x t IH]; intros [|y t'] H; simpl in H;
      inversion H; subst; constructor; auto.
Qed.

Lemma StronglySorted_weaken {A} (R R' : A -> A -> Prop) l :
  (forall a b, R a b -> R' a b) -> StronglySorted R l -> StronglySorted R' l.
Proof.
  intros HR. induction 1 as [|x t Hs IH Hx]; constructor; [exact IH|].
  apply Forall_forall. intros y Hy. rewrite Forall_forall in Hx. auto.
Qed.

(** C1.  The rows [_combine_sources] returns are the stamped rows of all
    the snapshots, rearranged (the rank field aside) into the descending
    order of the key (auc, mrr, ndcg5, ndcg10, team): of two rows the one
    before has the greater first component that differs, a missing metric
    counting as minus infinity, or the two have the same key.  The rank of
    each row is its position counted from 1, so the ranks are 1..n.  With
    all metrics equal, the team [Beta] is ranked above [Alpha]. *)
Theorem combine_sorts_and_ranks ps now :
  Permutation (map unranked (c_rows (_combine_sources ps now)))
              (map unranked (flat_map stamped_rows ps))
  /\ StronglySorted (fun a b => ranks_before a b \/ same_key a b)
                    (c_rows (_combine_sources ps now))
  /\ map r_rank (c_rows (_combine_sources ps now))
     = map Some (seq 1 (length (flat_map stamped_rows ps)))
  /\ (ranks_before (ranked_row "Beta" 1) (ranked_row "Alpha" 2)
      /\ c_rows (_combine_sources [two_ties] now)
         = [ranked_row "Beta" 1; ranked_row "Alpha" 2]).
Proof.
  cbn [_combine_sources c_rows].
  set (l := flat_map stamped_rows ps).
  pose proof (sort_reverse_perm _metric_sort_key key_compare l) as Hp.
  pose proof (sort_reverse_sorted _metric_sort_key key_compare l) as Hs.
  change (ltb_of key_compare) with key_ltb in Hp, Hs.
  split; [|split; [|split]].
  - rewrite assign_ranks_unranked. apply Permutation_map. exact Hp.
  - apply (StronglySorted_weaken key_ge); [intros a b; apply key_ge_iff|].
    apply (StronglySorted_map _metric_sort_key (fun k1 k2 => key_compare k1 k2 <> Lt)).
    rewrite assign_ranks_keys.
    apply (StronglySorted_map _metric_sort_key (fun k1 k2 => key_compare k1 k2 <> Lt)).
    exact Hs.
  - rewrite assign_ranks_rank. rewrite (Permutation_length Hp). reflexivity.
  - split; [|vm_compute; reflexivity].
    unfold ranks_before. simpl. right. split; [reflexivity|].
    right. split; [reflexivity|]. right. split; [exact I|]. right. split; [exact I|].
    reflexivity.
Qed.

Lemma assign_ranks_has_key k rows :
  map unranked (filter (has_key k) (assign_ranks rows))
  = map unranked (filter (has_key k) rows).
Proof.
  unfold assign_ranks. generalize 1. induction rows as [|r t IH]; intros i.
  - reflexivity.
  - cbn [enumerate_from map filter fst snd].
    change (has_key k (set_rank i r)) with (has_key k r).
    destruct (has_key k r); cbn [map]; rewrite IH; reflexivity.
Qed.

(** C2, as stated, fails: two snapshots each hold a row with the same sort
    key; listed in the other order they give the rows in the other order, so
    the row ranked first comes from the other source. *)
Lemma combine_depends_on_snapshot_order :
  let a := tie_snapshot "codalab-old" "X" in
  let b := tie_snapshot "codalab-new" "X" in
  Permutation [a; b] [b; a]
  /\ c_rows (_combine_sources [a; b] []) <> c_rows (_combine_sources [b; a] [])
  /\ map r_source (c_rows (_combine_sources [a; b] []))
     = [Some (lit "codalab-old"); Some (lit "codalab-new")]
  /\ map r_source (c_rows (_combine_sources [b; a] []))
     = [Some (lit "codalab-new"); Some (lit "codalab-old")].
Proof.
  cbv zeta. split; [apply perm_swap|]. split; [|split; vm_compute; reflexivity].
  intros H. apply (f_equal (map r_source)) in H. vm_compute in H. discriminate H.
Qed.

(** C2, amended.  [_combine_sources] is a function of the snapshot list:
    two calls on the same list give the same rows and ranks whatever the
    time stamp, and rows with one sort key stand in the order the snapshot
    list gives them.  For a rearrangement of the list, the output has the
    same rank values, at each position a row with the same sort key, and the
    same rows counted with multiplicity (ranks aside).  When rows with the
    same sort key are the same row, the rows and their ranks are the same
    for every rearrangement. *)
Theorem combine_under_permutation ps ps' now now' :
  Permutation ps ps' ->
  c_rows (_combine_sources ps now) = c_rows (_combine_sources ps now')
  /\ (forall k,
        map unranked (filter (has_key k) (c_rows (_combine_sources ps now)))
        = map unranked (filter (has_key k) (flat_map stamped_rows ps)))
  /\ map r_rank (c_rows (_combine_sources ps now))
     = map r_rank (c_rows (_combine_sources ps' now'))
  /\ Forall2 same_key (c_rows (_combine_sources ps now))
                      (c_rows (_combine_sources ps' now'))
  /\ Permutation (map unranked (c_rows (_combine_sources ps now)))
                 (map unranked (c_rows (_combine_sources ps' now')))
  /\ ((forall a b, In a (flat_map stamped_rows ps) -> In b (flat_map stamped_rows ps) ->
                   same_key a b -> a = b) ->
      c_rows (_combine_sources ps now) = c_rows (_combine_sources ps' now')).
Proof.
  intros Hps. cbn [_combine_sources c_rows].
  assert (Hl : Permutation (flat_map stamped_rows ps) (flat_map stamped_rows ps'))
    by (apply Permutation_flat_map; exact Hps).
  set (l := flat_map stamped_rows ps) in *.
  set (l' := flat_map stamped_rows ps') in *.
  pose proof (sort_reverse_perm _metric_sort_key key_compare l) as Hp.
  pose proof (sort_reverse_perm _metric_sort_key key_compare l') as Hp'.
  pose proof (sort_reverse_perm_keys _metric_sort_key key_compare l l' Hl) as Hk.
  change (ltb_of key_compare) with key_ltb in Hp, Hp', Hk.
  split; [reflexivity|]. split; [|split; [|split; [|split]]].
  - intros k. rewrite assign_ranks_has_key. f_equal.
    exact (sort_reverse_stable _metric_sort_key key_compare k l).
  - rewrite !assign_ranks_rank.
    rewrite (Permutation_length Hp), (Permutation_length Hp'), (Permutation_length Hl).
    reflexivity.
  - apply (Forall2_map_both _metric_sort_key (fun k1 k2 => key_compare k1 k2 = Eq)).
    rewrite !assign_ranks_keys.
    apply (Forall2_map_both _metric_sort_key (fun k1 k2 => key_compare k1 k2 = Eq)).
    exact Hk.
  - rewrite !assign_ranks_unranked. apply Permutation_map.
    apply Permutation_trans with l; [exact Hp|].
    apply Permutation_trans with l'; [exact Hl|apply Permutation_sym; exact Hp'].
  - intros Hinj. f_equal.
    exact (sort_reverse_perm_eq _metric_sort_key key_compare l l' Hl Hinj).
Qed.

Lemma combine_under_permutation_witness :
  c_rows (_combine_sources [tie_snapshot "codalab-old" "X"; tie_snapshot "codabench" "Y"]
                           (lit "2024-06-01T00:00:00Z"))
  = c_rows (_combine_sources [tie_snapshot "codabench" "Y"; tie_snapshot "codalab-old" "X"]
                             (lit "2024-07-01T00:00:00Z")).
Proof.
  refine (proj2 (proj2 (proj2 (proj2 (proj2
            (combine_under_permutation
               [tie_snapshot "codalab-old" "X"; tie_snapshot "codabench" "Y"]
               [tie_snapshot "codabench" "Y"; tie_snapshot "codalab-old" "X"]
               (lit "2024-06-01T00:00:00Z") (lit "2024-07-01T00:00:00Z")
               (perm_swap _ _ _)))))) _).
  intros a b Ha Hb Hk.
  vm_compute in Ha, Hb.
  destruct Ha as [<-|[<-|[]]]; destruct Hb as [<-|[<-|[]]];
    try reflexivity; vm_compute in Hk; discriminate Hk.
Defined.

(** ** Renderer: searching in texts *)

Lemma prefixb_length p s : prefixb p s = true -> length p <= length s.
Proof.
  revert s. induction p as [|a p IH]; intros s H; simpl; [lia|].
  destruct s as [|b s]; [discriminate H|].
  simpl in H. apply andb_prop in H as [_ H]. apply IH in H. simpl. lia.
Qed.

(** Text added after the first [length p] characters does not change
    whether [p] starts the text. *)
Lemma prefixb_app p u v : length p <= length u -> prefixb p (u ++ v) = prefixb p u.
Proof.
  revert u. induction p as [|a p IH]; intros u H; [reflexivity|].
  destruct u as [|b u]; [simpl in H; lia|].
  simpl. rewrite IH; [reflexivity|]. simpl in H. lia.
Qed.

Lemma prefixb_app_true p u v : prefixb p u = true -> prefixb p (u ++ v) = true.
Proof.
  intros H. rewrite prefixb_app; [exact H|]. apply prefixb_length. exact H.
Qed.

(** A match that reaches beyond [w] holds the character after [w]. *)
Lemma prefixb_covers p w c v :
  prefixb p (w ++ c :: v) = true -> length w < length p -> In c p.
Proof.
  revert w. induction p as [|a p IH]; intros w H Hl; [simpl in Hl; lia|].
  destruct w as [|b w]; simpl in H; apply andb_prop in H as [Hc H].
  - apply Ascii.eqb_eq in Hc. left. exact Hc.
  - right. apply (IH w H). simpl in Hl. lia.
Qed.

Lemma find_first_bound p s i : find_first p s = Some i -> i + length p <= length s.
Proof.
  revert i. induction s as [|c t IH]; intros i H; cbn [find_first] in H.
  - destruct (prefixb p []) eqn:E; [|discriminate H].
    injection H as <-. apply prefixb_length in E. simpl in *. lia.
  - destruct (prefixb p (c :: t)) eqn:E.
    + injection H as <-. apply prefixb_length in E. lia.
    + destruct (find_first p t) as [i'|]; [|discriminate H].
      injection H as <-. specialize (IH i' eq_refl). simpl. lia.
Qed.

(** [find_first] gives the first place where [p] starts. *)
Lemma find_first_some p s i :
  find_first p s = Some i ->
  prefixb p (skipn i s) = true
  /\ forall j, j < i -> prefixb p (skipn j s) = false.
Proof.
  revert i. induction s as [|c t IH]; intros i H; cbn [find_first] in H.
  - destruct (prefixb p []) eqn:E; [|discriminate H].
    injection H as <-. split; [exact E|]. intros j Hj. lia.
  - destruct (prefixb p (c :: t)) eqn:E.
    + injection H as <-. split; [exact E|]. intros j Hj. lia.
    + destruct (find_first p t) as [i'|]; [|discriminate H].
      injection H as <-. destruct (IH i' eq_refl) as [H1 H2].
      split; [exact H1|]. intros [|j] Hj; [exact E|].
      apply H2. lia.
Qed.

Lemma find_first_none p s j : find_first p s = None -> prefixb p (skipn j s) = false.
Proof.
  revert j. induction s as [|c t IH]; intros j H; cbn [find_first] in H.
  - destruct (prefixb p []) eqn:E; [discriminate H|]. destruct j; exact E.
  - destruct (prefixb p (c :: t)) eqn:E; [discriminate H|].
    destruct (find_first p t) as [i'|]; [discriminate H|].
    destruct j as [|j]; [exact E|]. apply IH. reflexivity.
Qed.

Lemma find_first_at p s i :
  i <= length s -> prefixb p (skipn i s) = true ->
  (forall j, j < i -> prefixb p (skipn j s) = false) ->
  find_first p s = Some i.
Proof.
  revert i. induction s as [|c t IH]; intros i Hi Ht Hf.
  - simpl in Hi. assert (i = 0) by lia. subst i. simpl in *. rewrite Ht. reflexivity.
  - destruct i as [|i].
    + simpl in Ht. cbn [find_first]. rewrite Ht. reflexivity.
    + cbn [find_first]. pose proof (Hf 0 (Nat.lt_0_succ i)) as H0.
      cbn [skipn] in H0. rewrite H0.
      rewrite (IH i); [reflexivity|simpl in Hi; lia|exact Ht|].
      intros j Hj. apply (Hf (S j)). lia.
Qed.

(** The first occurrence in [u] is the first occurrence in [u ++ v]. *)
Lemma find_first_app_l p u v i :
  find_first p u = Some i -> find_first p (u ++ v) = Some i.
Proof.
  intros H. pose proof (find_first_bound _ _ _ H) as Hb.
  destruct (find_first_some _ _ _ H) as [H1 H2].
  apply find_first_at.
  - rewrite length_app. lia.
  - rewrite skipn_app. replace (i - length u) with 0 by lia. simpl.
    apply prefixb_app_true. exact H1.
  - intros j Hj. rewrite skipn_app. replace (j - length u) with 0 by lia. simpl.
    rewrite prefixb_app; [exact (H2 j Hj)|]. rewrite length_skipn. lia.
Qed.

(** When [p] starts nowhere in [u], also not reaching into [v], the search
    goes on in [v]. *)
Lemma find_first_app_skip p u v :
  (forall j, j < length u -> prefixb p (skipn j (u ++ v)) = false) ->
  find_first p (u ++ v) = option_map (fun i => length u + i) (find_first p v).
Proof.
  induction u as [|c t IH]; intros H.
  - simpl. destruct (find_first p v); reflexivity.
  - cbn [app find_first]. pose proof (H 0 (Nat.lt_0_succ _)) as H0.
    cbn [skipn app] in H0. rewrite H0.
    rewrite IH.
    + destruct (find_first p v); reflexivity.
    + intros j Hj. apply (H (S j)). simpl. lia.
Qed.

(** [p] starts nowhere in [u], reaching into [v] or not, when it does not
    occur in [u] and does not hold the last character of [u]. *)
Lemma no_start_in_guarded p u0 c v :
  (forall j, j + length p <= length (u0 ++ [c]) ->
             prefixb p (skipn j (u0 ++ [c])) = false) ->
  ~ In c p ->
  forall j, j < length (u0 ++ [c]) -> prefixb p (skipn j ((u0 ++ [c]) ++ v)) = false.
Proof.
  intros Hin Hc j Hj.
  rewrite skipn_app. replace (j - length (u0 ++ [c])) with 0 by lia. simpl.
  destruct (Nat.le_gt_cases (j + length p) (length (u0 ++ [c]))) as [Hle|Hgt].
  - rewrite prefixb_app; [exact (Hin j Hle)|]. rewrite length_skipn. lia.
  - destruct (prefixb p (skipn j (u0 ++ [c]) ++ v)) eqn:E; [|reflexivity].
    exfalso. apply Hc.
    rewrite length_app in Hj, Hgt. simpl in Hj, Hgt.
    rewrite skipn_app in E. replace (j - length u0) with 0 in E by lia.
    simpl in E. rewrite <- app_assoc in E. simpl in E.
    apply (prefixb_covers p (skipn j u0) c v E). rewrite length_skipn. lia.
Qed.

Lemma last_index_some c s i :
  last_index c s = Some i ->
  exists u v, s = u ++ c :: v /\ length u = i /\ last_index c v = None.
Proof.
  revert i. induction s as [|x t IH]; intros i H; simpl in H; [discriminate H|].
  destruct (last_index c t) as [i'|] eqn:E.
  - injection H as <-. destruct (IH i' eq_refl) as (u & v & -> & <- & Hv).
    exists (x :: u), v. auto.
  - destruct (Ascii.eqb x c) eqn:Ex; [|discriminate H].
    injection H as <-. apply Ascii.eqb_eq in Ex. subst x.
    exists [], t. auto.
Qed.

Lemma last_index_app_r c u v :
  last_index c v = None -> last_index c (u ++ c :: v) = Some (length u).
Proof.
  intros Hv. induction u as [|x t IH]; simpl.
  - rewrite Hv, Ascii.eqb_refl. reflexivity.
  - rewrite IH. reflexivity.
Qed.

(** Nothing is cut out before the end of [u] when no match of the script
    expression starts there. *)
Lemma sub_legacy_script_app u v :
  (forall j, j < length u -> match_legacy_script (skipn j (u ++ v)) = None) ->
  sub_legacy_script (u ++ v) = u ++ sub_legacy_script v.
Proof.
  induction u as [|c t IH]; intros H; [reflexivity|].
  cbn [app sub_legacy_script]. pose proof (H 0 (Nat.lt_0_succ _)) as H0.
  cbn [skipn app] in H0. rewrite H0.
  rewrite IH; [reflexivity|]. intros j Hj. apply (H (S j)). simpl. lia.
Qed.

Lemma prefixb_firstn p k t : length p <= k -> prefixb p (firstn k t) = prefixb p t.
Proof.
  revert k t. induction p as [|a p IH]; intros k t H; [reflexivity|].
  destruct k as [|k]; [simpl in H; lia|].
  destruct t as [|b t]; [reflexivity|].
  simpl. rewrite IH; [reflexivity|]. simpl in H. lia.
Qed.

Lemma skipn_firstn_swap {A} j n (l : list A) :
  skipn j (firstn n l) = firstn (n - j) (skipn j l).
Proof.
  revert n l. induction j as [|j IH]; intros n l.
  - rewrite Nat.sub_0_r. reflexivity.
  - destruct n as [|n]; [simpl; destruct (skipn (S j) l); reflexivity|].
    destruct l as [|x l]; [simpl; destruct (n - j); reflexivity|].
    simpl. apply IH.
Qed.

(** The first occurrence stays the first one when the text is cut after it. *)
Lemma find_first_firstn p s i n :
  find_first p s = Some i -> i + length p <= n -> find_first p (firstn n s) = Some i.
Proof.
  intros H Hn. pose proof (find_first_bound _ _ _ H) as Hb.
  destruct (find_first_some _ _ _ H) as [H1 H2].
  apply find_first_at.
  - rewrite length_firstn. lia.
  - rewrite skipn_firstn_swap, prefixb_firstn; [exact H1|lia].
  - intros j Hj. rewrite skipn_firstn_swap, prefixb_firstn; [exact (H2 j Hj)|lia].
Qed.

Lemma py_find_some p s start i :
  py_find p s start = Some i ->
  start <= length s /\ start <= i
  /\ find_first p (skipn start s) = Some (i - start).
Proof.
  unfold py_find. destruct (Nat.ltb (length s) start) eqn:E; [discriminate|].
  apply Nat.ltb_ge in E.
  destruct (find_first p (skipn start s)) as [k|]; [|discriminate].
  simpl. intros H. injection H as <-. split; [exact E|]. split; [lia|].
  f_equal. lia.
Qed.

Lemma py_find_from p s start k :
  start <= length s -> find_first p (skipn start s) = Some k ->
  py_find p s start = Some (start + k).
Proof.
  intros Hs Hk. unfold py_find.
  destruct (Nat.ltb (length s) start) eqn:E; [apply Nat.ltb_lt in E; lia|].
  rewrite Hk. reflexivity.
Qed.

Lemma not_in_chars c p :
  forallb (fun x => negb (Ascii.eqb x c)) p = true -> ~ In c p.
Proof.
  intros H Hin. rewrite forallb_forall in H. specialize (H c Hin).
  rewrite Ascii.eqb_refl in H. discriminate H.
Qed.

Lemma join_nl_shape (out : list str) :
  join [nl] out ++ match out with [] => [] | _ => [nl] end = []
  \/ exists r0, join [nl] out ++ match out with [] => [] | _ => [nl] end = r0 ++ [nl].
Proof.
  destruct out as [|x t]; [left; reflexivity|].
  right. exists (join [nl] (x :: t)). reflexivity.
Qed.

Lemma header_html_head :
  header_html = indent24 ++ (table_tag ++ header_tail).
Proof. vm_compute. reflexivity. Qed.

(** The new table: indentation, table tag, the rest of the header and a
    line break, the rows, the closing line. *)
Lemma new_table_shape c :
  new_table_html c
  = indent24 ++ ((table_tag ++ header_tail) ++ [nl])
      ++ _render_leaderboard_rows_html (c_rows c) ++ closing_line.
Proof.
  unfold new_table_html. rewrite header_html_head.
  rewrite <- !app_assoc. reflexivity.
Qed.

Lemma skipn_indent24 (y : str) : skipn 24 (indent24 ++ y) = y.
Proof. reflexivity. Qed.

Lemma firstn_indent24 (y : str) : firstn 24 (indent24 ++ y) = indent24.
Proof. reflexivity. Qed.

Lemma header_has_no_close :
  find_first table_close ((table_tag ++ header_tail) ++ [nl]) = None.
Proof. vm_compute. reflexivity. Qed.

Lemma header_tag_first : find_first table_tag (table_tag ++ header_tail) = Some 0.
Proof. vm_compute. reflexivity. Qed.

(** When the rendered rows hold no closing tag, the first closing tag after
    the table tag of the new table is the one that ends it. *)
Lemma new_table_close c :
  contains table_close (_render_leaderboard_rows_html (c_rows c)) = false ->
  find_first table_close (skipn 24 (new_table_html c))
  = Some (length (new_table_html c) - 24 - length table_close).
Proof.
  intros Hrows. rewrite new_table_shape, skipn_indent24.
  set (rows := _render_leaderboard_rows_html (c_rows c)) in *.
  assert (Hnone : find_first table_close rows = None).
  { unfold contains in Hrows.
    destruct (find_first table_close rows); [discriminate|reflexivity]. }
  assert (Hnl : ~ In nl table_close) by (apply not_in_chars; reflexivity).
  rewrite find_first_app_skip.
  2:{ apply no_start_in_guarded; [|exact Hnl].
      intros j _. apply find_first_none. exact header_has_no_close. }
  assert (Hrest : find_first table_close (rows ++ closing_line)
                  = Some (length rows + 24)).
  { destruct (join_nl_shape (flat_map (fun ir => render_row (fst ir) (snd ir))
                                      (enumerate_from 1 (c_rows c)))) as [E|[r0 E]];
      fold (_render_leaderboard_rows_html (c_rows c)) in E; fold rows in E.
    - rewrite E. reflexivity.
    - rewrite find_first_app_skip.
      + replace (find_first table_close closing_line) with (Some 24) by reflexivity.
        reflexivity.
      + rewrite E. apply no_start_in_guarded; [|exact Hnl].
        intros j _. rewrite <- E. apply find_first_none. exact Hnone. }
  rewrite Hrest. cbn [option_map]. f_equal.
  rewrite !length_app.
  change (length indent24) with 24. change (length closing_line) with 32.
  change (length table_close) with 8. lia.
Qed.

(** What [_update_index_html_leaderboard] returns once the table is found. *)
Lemma update_located html c a ts ls te :
  table_on_later_line html a ts ls te ->
  _update_index_html_leaderboard html c
  = Ok (sub_legacy_script (firstn (ls + 1) html ++ new_table_html c
                           ++ skipn (te + length table_close) html)).
Proof.
  intros (Ha & Hts & Hls & _ & Hte). unfold _update_index_html_leaderboard.
  rewrite Ha, Hts, Hls, Hte. reflexivity.
Qed.

(** In a document that holds the new table after a line break, with the
    heading before that line and no other table tag between the heading and
    the table, the search finds the new table itself. *)
Lemma new_table_located c x0 a rest :
  find_first anchor_tag (x0 ++ [nl]) = Some a ->
  a + length anchor_tag <= length x0 ->
  (forall j, a <= j -> j + length table_tag <= length (x0 ++ [nl]) ->
             prefixb table_tag (skipn j (x0 ++ [nl])) = false) ->
  contains table_close (_render_leaderboard_rows_html (c_rows c)) = false ->
  table_on_later_line ((x0 ++ [nl]) ++ new_table_html c ++ rest) a
    (length (x0 ++ [nl]) + 24) (length x0)
    (length (x0 ++ [nl]) + length (new_table_html c) - length table_close).
Proof.
  intros Ha Hal Hnotag Hrows.
  assert (Hlx : length (x0 ++ [nl]) = length x0 + 1)
    by (rewrite length_app; reflexivity).
  assert (Hn24 : 24 + length table_close <= length (new_table_html c)).
  { rewrite new_table_shape, !length_app.
    change (length closing_line) with 32. change (length indent24) with 24.
    change (length table_close) with 8. lia. }
  change (length anchor_tag) with 21 in *. change (length table_tag) with 37 in *.
  change (length table_close) with 8 in *.
  unfold table_on_later_line.
  split; [|split; [|split; [|split]]].
  - (* the heading *)
    apply (py_find_from anchor_tag _ 0 a); [lia|].
    cbn [skipn]. apply find_first_app_l. exact Ha.
  - (* the table tag *)
    replace (length (x0 ++ [nl]) + 24) with (a + (length (skipn a x0 ++ [nl]) + 24))
      by (rewrite length_app, length_skipn; simpl; lia).
    apply py_find_from; [rewrite !length_app; simpl; lia|].
    rewrite skipn_app. replace (a - length (x0 ++ [nl])) with 0 by lia.
    rewrite skipn_app. replace (a - length x0) with 0 by lia. cbn [skipn].
    rewrite find_first_app_skip.
    + rewrite new_table_shape.
      replace (find_first table_tag _) with (Some 24); [reflexivity|].
      symmetry. rewrite <- !app_assoc.
      apply (find_first_at table_tag _ 24).
      * rewrite !length_app. change (length indent24) with 24. lia.
      * rewrite skipn_indent24. apply prefixb_app_true. reflexivity.
      * intros j Hj. do 24 (destruct j as [|j]; [reflexivity|]). lia.
    + apply no_start_in_guarded; [|apply not_in_chars; reflexivity].
      intros j Hj.
      replace (skipn a x0 ++ [nl]) with (skipn a (x0 ++ [nl]))
        by (rewrite skipn_app; replace (a - length x0) with 0 by lia; reflexivity).
      rewrite skipn_skipn. apply Hnotag; [lia|].
      change (length table_tag) with 37 in Hj.
      rewrite length_app, length_skipn in Hj. simpl in Hj. lia.
  - (* the line break before the table tag *)
    unfold py_rfind_char. rewrite firstn_app.
    replace (length (x0 ++ [nl]) + 24 - length (x0 ++ [nl])) with 24 by lia.
    rewrite firstn_all2 by lia.
    rewrite new_table_shape, <- (app_assoc indent24), firstn_indent24, <- app_assoc.
    apply last_index_app_r. reflexivity.
  - exact Hal.
  - (* the closing tag *)
    replace (length (x0 ++ [nl]) + length (new_table_html c) - 8)
      with (length (x0 ++ [nl]) + 24 + (length (new_table_html c) - 24 - 8)) by lia.
    apply py_find_from; [rewrite !length_app; simpl; lia|].
    rewrite skipn_app.
    replace (length (x0 ++ [nl]) + 24 - length (x0 ++ [nl])) with 24 by lia.
    rewrite skipn_all2 by lia. cbn [app].
    rewrite skipn_app. replace (24 - length (new_table_html c)) with 0 by lia.
    cbn [skipn]. apply find_first_app_l. apply new_table_close. exact Hrows.
Qed.

(** What the first injection keeps before the table: the text up to the
    line break before the table tag, with the heading in it and no table tag
    after the heading. *)
Lemma kept_before_table html a ts ls te :
  table_on_later_line html a ts ls te ->
  exists x0,
    firstn (ls + 1) html = x0 ++ [nl] /\ length x0 = ls
    /\ find_first anchor_tag (x0 ++ [nl]) = Some a
    /\ (forall j, a <= j -> j + length table_tag <= length (x0 ++ [nl]) ->
                  prefixb table_tag (skipn j (x0 ++ [nl])) = false).
Proof.
  intros (Ha & Hts & Hls & Hal & _).
  apply py_find_some in Ha as (_ & _ & Ha). cbn [skipn] in Ha.
  rewrite Nat.sub_0_r in Ha.
  apply py_find_some in Hts as (Hlen & Hle & Hts).
  pose proof (find_first_bound _ _ _ Hts) as Hb. rewrite length_skipn in Hb.
  destruct (find_first_some _ _ _ Hts) as [_ Hfirst].
  unfold py_rfind_char in Hls.
  apply last_index_some in Hls as (u & v & Hu & Hlu & _).
  assert (Hts_len : ts = ls + 1 + length v).
  { apply (f_equal (@length ascii)) in Hu.
    rewrite length_firstn, length_app in Hu. simpl in Hu. lia. }
  assert (HX : firstn (ls + 1) html = u ++ [nl]).
  { transitivity (firstn (ls + 1) (firstn ts html)).
    - rewrite firstn_firstn. f_equal. lia.
    - rewrite Hu, firstn_app. replace (ls + 1 - length u) with 1 by lia.
      rewrite firstn_all2 by lia. reflexivity. }
  exists u. split; [exact HX|]. split; [exact Hlu|]. rewrite <- HX. split.
  - apply find_first_firstn; [exact Ha|lia].
  - intros j Hj Hjl. rewrite length_firstn in Hjl.
    change (length table_tag) with 37 in *.
    rewrite skipn_firstn_swap, prefixb_firstn by (change (length table_tag) with 37; lia).
    replace j with ((j - a) + a) by lia. rewrite <- skipn_skipn.
    apply Hfirst. lia.
Qed.

(** C10, as stated, fails: with the heading and the table tag on one line,
    the first injection replaces the whole line, heading included, and the
    second injection finds no leaderboard section and raises. *)
Lemma second_injection_fails_on_one_line :
  exists html1,
    _update_index_html_leaderboard one_line_page sample_combined = Ok html1
    /\ _update_index_html_leaderboard html1 sample_combined
       = Raise (RuntimeError (lit "Could not find leaderboard section in index.html")).
Proof. eexists. split; vm_compute; reflexivity. Qed.

(** C10, amended.  Take a document in which the table tag of the marked
    table stands on a later line than the section heading, and a leaderboard
    whose rendered rows hold no closing table tag.  When cutting out the
    legacy script block leaves the text up to the end of the new table as it
    is, in the first injection and in the second, both injections succeed
    and both results consist of the same text before the table, the same
    table markup, and what the script removal leaves after it: the second
    injection adds no second copy of the table and changes nothing up to its
    end.  When the first injection left no script block to cut out, the
    second returns the document unchanged. *)
Theorem injection_idempotent html c a ts ls te rest1 rest2 :
  table_on_later_line html a ts ls te ->
  contains table_close (_render_leaderboard_rows_html (c_rows c)) = false ->
  sub_legacy_script (firstn (ls + 1) html ++ new_table_html c
                     ++ skipn (te + length table_close) html)
  = firstn (ls + 1) html ++ new_table_html c ++ rest1 ->
  sub_legacy_script (firstn (ls + 1) html ++ new_table_html c ++ rest1)
  = firstn (ls + 1) html ++ new_table_html c ++ rest2 ->
  _update_index_html_leaderboard html c
  = Ok (firstn (ls + 1) html ++ new_table_html c ++ rest1)
  /\ _update_index_html_leaderboard
       (firstn (ls + 1) html ++ new_table_html c ++ rest1) c
     = Ok (firstn (ls + 1) html ++ new_table_html c ++ rest2)
  /\ (rest2 = rest1 ->
      _update_index_html_leaderboard
        (firstn (ls + 1) html ++ new_table_html c ++ rest1) c
      = _update_index_html_leaderboard html c).
Proof.
  intros Hloc Hrows Hs1 Hs2.
  assert (H1 : _update_index_html_leaderboard html c
               = Ok (firstn (ls + 1) html ++ new_table_html c ++ rest1)).
  { rewrite (update_located html c a ts ls te Hloc), Hs1. reflexivity. }
  assert (H2 : _update_index_html_leaderboard
                 (firstn (ls + 1) html ++ new_table_html c ++ rest1) c
               = Ok (firstn (ls + 1) html ++ new_table_html c ++ rest2)).
  { destruct (kept_before_table html a ts ls te Hloc) as (x0 & HX & Hlx & Ha & Hnotag).
    pose proof Hloc as (_ & _ & _ & Hal & _). rewrite <- Hlx in Hal.
    rewrite HX in *.
    pose proof (new_table_located c x0 a rest1 Ha Hal Hnotag Hrows) as Hloc2.
    rewrite (update_located _ c _ _ _ _ Hloc2).
    assert (Hn : length table_close <= length (new_table_html c)).
    { rewrite new_table_shape, !length_app.
      change (length closing_line) with 32. change (length table_close) with 8. lia. }
    replace (firstn (length x0 + 1) ((x0 ++ [nl]) ++ new_table_html c ++ rest1))
      with (x0 ++ [nl]).
    2:{ rewrite firstn_app, firstn_all2 by (rewrite length_app; simpl; lia).
        replace (length x0 + 1 - length (x0 ++ [nl])) with 0
          by (rewrite length_app; simpl; lia).
        rewrite app_nil_r. reflexivity. }
    replace (skipn _ ((x0 ++ [nl]) ++ new_table_html c ++ rest1)) with rest1.
    2:{ replace (length (x0 ++ [nl]) + length (new_table_html c) - length table_close
                 + length table_close)
          with (length (x0 ++ [nl]) + length (new_table_html c)) by lia.
        rewrite app_assoc, skipn_app, <- length_app.
        rewrite skipn_all, Nat.sub_diag. reflexivity. }
    rewrite <- app_assoc in Hs2. rewrite <- app_assoc. rewrite Hs2. reflexivity. }
  split; [exact H1|]. split; [exact H2|].
  intros ->. rewrite H1, H2. reflexivity.
Qed.

Lemma injection_idempotent_witness :
  _update_index_html_leaderboard
    (firstn 45 sample_page ++ new_table_html sample_combined ++ nl :: lit "</html>")
    sample_combined
  = _update_index_html_leaderboard sample_page sample_combined.
Proof.
  refine (proj2 (proj2 (injection_idempotent sample_page sample_combined 7 47 44 106
                          (nl :: lit "</html>") (nl :: lit "</html>") _ _ _ _))
                eq_refl).
  - unfold table_on_later_line. vm_compute. repeat split; lia.
  - vm_compute. reflexivity.
  - vm_compute. reflexivity.
  - vm_compute. reflexivity.
Defined.

(** The conditions of [injection_idempotent] are needed.  A team name with a
    closing table tag in it ends the table region early for the second
    injection, which then leaves the rest of the first table behind its own. *)
Example injection_repeats_after_unescaped_closing_tag :
  exists html1 html2,
    _update_index_html_leaderboard sample_page unescaped_combined = Ok html1
    /\ _update_index_html_leaderboard html1 unescaped_combined = Ok html2
    /\ length html2 = length html1 + 657.
Proof. eexists. eexists. repeat split; vm_compute; reflexivity. Qed.

(** With no line break before the table tag, every injection puts the
    indentation of the new table after what precedes the tag on its line. *)
Example injection_indents_again_on_first_line :
  exists html1 html2,
    _update_index_html_leaderboard first_line_page sample_combined = Ok html1
    /\ _update_index_html_leaderboard html1 sample_combined = Ok html2
    /\ length html2 = length html1 + 24.
Proof. eexists. eexists. repeat split; vm_compute; reflexivity. Qed.
